(** * TalentFlow: the mock API, its object stores and the views that drive it

    A shallow embedding of the data layer of the TalentFlow application
    (class [MockAPI], the [JobsView], [KanbanBoard] and [CreateJobModal]
    handlers) together with the properties of its specification.

    Conventions of the model.
    - A JavaScript object used as a record is a finite map from field names
      to values; the spread [{...a, ...b}] is the union that prefers [b].
    - An IndexedDB object store is a list of (key, record) pairs kept in key
      order, which is the order [getAll] returns.
    - [Math.random()] and [Date.now()] are inputs: every operation takes the
      samples it draws.
    - Numbers are integers ([Z]) or rationals ([Q]) and strings are ASCII. *)

From Stdlib Require Import ZArith QArith Qround Lqa List Ascii String Lia.
From stdpp Require Import base gmap strings list fin_maps pretty.

Local Open Scope Z_scope.

(** ** JavaScript built-ins used by the program *)

Module Js.

Definition lower_ascii (c : ascii) : ascii :=
  let n := nat_of_ascii c in
  if ((65 <=? n)%nat && (n <=? 90)%nat)%bool then ascii_of_nat (n + 32) else c.

(** [String.prototype.toLowerCase] *)
Fixpoint toLowerCase (s : string) : string :=
  match s with
  | EmptyString => EmptyString
  | String c s' => String (lower_ascii c) (toLowerCase s')
  end.

(** [s.startsWith(t)] *)
Fixpoint startsWith (s t : string) {struct t} : bool :=
  match t, s with
  | EmptyString, _ => true
  | String _ _, EmptyString => false
  | String b t', String a s' => if Ascii.eqb a b then startsWith s' t' else false
  end.

(** [s.includes(t)]: [t] occurs in [s] at some position *)
Fixpoint includes (s t : string) : bool :=
  (startsWith s t ||
   match s with
   | EmptyString => false
   | String _ s' => includes s' t
   end)%bool.

(** White space removed by [trim]: tab, line feed, vertical tab, form feed,
    carriage return and space. *)
Definition is_space (c : ascii) : bool :=
  let n := nat_of_ascii c in
  (((9 <=? n)%nat && (n <=? 13)%nat) || (n =? 32)%nat)%bool.

Fixpoint trimStart (s : string) : string :=
  match s with
  | EmptyString => EmptyString
  | String c s' => if is_space c then trimStart s' else s
  end.

Fixpoint trimEnd (s : string) : string :=
  match s with
  | EmptyString => EmptyString
  | String c s' =>
      match trimEnd s' with
      | EmptyString => if is_space c then EmptyString else String c EmptyString
      | r => String c r
      end
  end.

(** [String.prototype.trim] *)
Definition trim (s : string) : string := trimEnd (trimStart s).

(** A relative index as [slice] and [splice] resolve it: a negative index
    counts from the end, and the result is clamped to [0, len]. *)
Definition relative_index (len i : Z) : Z :=
  if i <? 0 then Z.max (len + i) 0 else Z.min i len.

(** [l.slice(start, end)] *)
Definition slice {A} (l : list A) (start end_ : Z) : list A :=
  let len := Z.of_nat (length l) in
  let k := relative_index len start in
  let final := relative_index len end_ in
  take (Z.to_nat (final - k)) (drop (Z.to_nat k) l).

(** [l.findIndex(f)], -1 when no element satisfies [f] *)
Fixpoint findIndex {A} (f : A → bool) (l : list A) : Z :=
  match l with
  | [] => -1
  | x :: l' =>
      if f x then 0
      else let i := findIndex f l' in if i <? 0 then -1 else i + 1
  end.

(** [l.splice(start, 1)]: the removed elements and what is left of [l] *)
Definition splice_remove1 {A} (l : list A) (start : Z) : list A * list A :=
  let k := Z.to_nat (relative_index (Z.of_nat (length l)) start) in
  (take 1 (drop k l), take k l ++ drop (S k) l).

(** [l.splice(start, 0, x)]: [l] with [x] inserted *)
Definition splice_insert {A} (l : list A) (start : Z) (x : A) : list A :=
  let k := Z.to_nat (relative_index (Z.of_nat (length l)) start) in
  take k l ++ x :: drop k l.

(** [l[i]] for a number [i] *)
Definition at_index {A} (l : list A) (i : Z) : option A :=
  if i <? 0 then None else l !! Z.to_nat i.

(** [a < b] on numbers *)
Definition Qltb (a b : Q) : bool := negb (Qle_bool b a).

(** Conversion of a number to an integer by truncation, as the [Date]
    constructor does with a millisecond count. *)
Definition Qtrunc (q : Q) : Z :=
  if Qle_bool 0 q then Qfloor q else Qceiling q.

(** [Math.ceil(a / b)] for integers [a] and [b], [b] not zero *)
Definition ceil_div (a b : Z) : Z := - ((- a) / b).

(** [s.split(sep)] for a separator of one character *)
Fixpoint split (sep : ascii) (s : string) : list string :=
  match s with
  | EmptyString => [EmptyString]
  | String c s' =>
      match split sep s' with
      | w :: ws =>
          if Ascii.eqb c sep then EmptyString :: w :: ws
          else String c w :: ws
      | [] => []
      end
  end.

(** [l.join(sep)] for a list of strings *)
Fixpoint join (sep : string) (l : list string) : string :=
  match l with
  | [] => EmptyString
  | x :: l' =>
      match l' with
      | [] => x
      | _ :: _ => x +:+ sep +:+ join sep l'
      end
  end.

(** [l.filter(Boolean)] for a list of strings: the empty ones go *)
Definition filter_nonempty (l : list string) : list string :=
  List.filter (fun t => negb (String.eqb t EmptyString)) l.

End Js.

(** ** Values and records *)

(** The values a field of a job or candidate can hold. *)
Inductive value :=
| VUndef
| VNull
| VBool (b : bool)
| VNum (n : Z)
| VDate (ms : Z)
| VStr (s : string)
| VList (l : list string).

#[global] Instance value_eq_dec : EqDecision value.
Proof. solve_decision. Defined.

(** A job or a candidate: a JavaScript object with named fields. *)
Abbreviation record := (gmap string value).

(** The spread [{...r, ...p}]: the fields of [p] override those of [r]. *)
Definition spread (r p : record) : record := p ∪ r.

(** ** Object stores *)

Module Store.

(** The values IndexedDB accepts as keys: numbers, dates, strings and
    arrays of keys. *)
Inductive key :=
| KNum (n : Z)
| KDate (ms : Z)
| KStr (s : string)
| KList (l : list string).

#[global] Instance key_eq_dec : EqDecision key.
Proof. solve_decision. Defined.

Definition to_key (v : value) : option key :=
  match v with
  | VNum n => Some (KNum n)
  | VDate ms => Some (KDate ms)
  | VStr s => Some (KStr s)
  | VList l => Some (KList l)
  | VUndef | VNull | VBool _ => None
  end.

Fixpoint list_ltb (a b : list string) : bool :=
  match a, b with
  | [], [] => false
  | [], _ :: _ => true
  | _ :: _, [] => false
  | x :: a', y :: b' =>
      if String.ltb x y then true
      else if String.eqb x y then list_ltb a' b' else false
  end.

Definition key_rank (k : key) : Z :=
  match k with KNum _ => 0 | KDate _ => 1 | KStr _ => 2 | KList _ => 3 end.

(** The order of keys: numbers before dates before strings before arrays,
    and within a type the natural order. *)
Definition key_ltb (a b : key) : bool :=
  match a, b with
  | KNum x, KNum y => x <? y
  | KDate x, KDate y => x <? y
  | KStr x, KStr y => String.ltb x y
  | KList x, KList y => list_ltb x y
  | _, _ => key_rank a <? key_rank b
  end.

(** An object store holding records of type [A]. *)
Definition ostore (A : Type) : Type := list (key * A).

(** [store.get(k)] *)
Fixpoint get {A} (k : key) (s : ostore A) : option A :=
  match s with
  | [] => None
  | (k', r) :: s' => if decide (k = k') then Some r else get k s'
  end.

(** The write of [store.put]: replace the record at [k] or insert it at
    its place in key order. *)
Fixpoint upsert {A} (k : key) (r : A) (s : ostore A) : ostore A :=
  match s with
  | [] => [(k, r)]
  | (k', r') :: s' =>
      if decide (k = k') then (k, r) :: s'
      else if key_ltb k k' then (k, r) :: (k', r') :: s'
      else (k', r') :: upsert k r s'
  end.

(** The key of a record in a store with in-line keys at [path]
    ([keyPath: 'id'] for jobs and candidates). *)
Definition key_at (path : string) (r : record) : option key :=
  r !! path ≫= to_key.

(** [store.put(r)]: [None] is the [DataError] of a record without a valid
    key at the key path. *)
Definition put {A} (keyOf : A → option key) (r : A) (s : ostore A)
  : option (ostore A) :=
  k ← keyOf r; Some (upsert k r s).

(** [store.add(r)]: [None] is a failed request, either the [DataError]
    above or the [ConstraintError] of a key that is already present. *)
Definition add {A} (keyOf : A → option key) (r : A) (s : ostore A)
  : option (ostore A) :=
  k ← keyOf r;
  match get k s with
  | Some _ => None
  | None => Some (upsert k r s)
  end.

(** [store.getAll()]: the records in key order *)
Definition getAll {A} (s : ostore A) : list A := map snd s.

(** [store.count()] *)
Definition count {A} (s : ostore A) : Z := Z.of_nat (length s).

End Store.

(** ** Assessments *)

Inductive Validation :=
| Range (min max : Z)
| MaxLength (maxLength : Z).

Record Question := {
  q_id : string;
  q_type : string;
  q_question : string;
  q_required : bool;
  q_options : option (list string);
  q_validation : Validation
}.

Record Section_ := {
  s_id : string;
  s_title : string;
  s_questions : list Question
}.

Record Assessment := {
  a_jobId : string;
  a_title : string;
  a_sections : list Section_
}.

(** ** The database *)

Record DB := {
  jobsStore : Store.ostore record;
  candidatesStore : Store.ostore record;
  assessmentsStore : Store.ostore Assessment
}.

Definition empty_db : DB :=
  {| jobsStore := []; candidatesStore := []; assessmentsStore := [] |}.

Definition set_jobs (s : Store.ostore record) (db : DB) : DB :=
  {| jobsStore := s;
     candidatesStore := candidatesStore db;
     assessmentsStore := assessmentsStore db |}.

Definition set_candidates (s : Store.ostore record) (db : DB) : DB :=
  {| jobsStore := jobsStore db;
     candidatesStore := s;
     assessmentsStore := assessmentsStore db |}.

Definition set_assessments (s : Store.ostore Assessment) (db : DB) : DB :=
  {| jobsStore := jobsStore db;
     candidatesStore := candidatesStore db;
     assessmentsStore := s |}.

(** ** Results of asynchronous operations *)

Inductive error :=
| NetworkError   (* [new Error('Network error')] thrown by [delay] *)
| TypeError      (* a method called on a value that does not have it *)
| DataError.     (* a store operation given no valid key *)

Inductive outcome (A : Type) :=
| Resolved (a : A)
| Rejected (e : error).

Arguments Resolved {A} a.
Arguments Rejected {A} e.

#[global] Instance error_eq_dec : EqDecision error.
Proof. solve_decision. Defined.

#[global] Instance outcome_eq_dec {A} `{EqDecision A} : EqDecision (outcome A).
Proof. solve_decision. Defined.

#[global] Instance outcome_ret : MRet outcome := fun A a => Resolved a.

#[global] Instance outcome_bind : MBind outcome := fun A B f o =>
  match o with
  | Resolved a => f a
  | Rejected e => Rejected e
  end.

(** [l.filter(f)] where the callback may throw: the first exception ends
    the traversal. *)
Fixpoint filterM {A} (f : A → outcome bool) (l : list A) : outcome (list A) :=
  match l with
  | [] => Resolved []
  | x :: l' =>
      match f x with
      | Rejected e => Rejected e
      | Resolved b =>
          rest ← filterM f l';
          Resolved (if b then x :: rest else rest)
      end
  end.

(** ** The mock API *)

Module MockAPI.

Import Store.

(** The assessments store has [keyPath: 'jobId']. *)
Definition assessment_key (a : Assessment) : option key :=
  Some (KStr (a_jobId a)).

(** The two samples [delay] draws from [Math.random()]. *)
Record Net := { latency : Q; fault : Q }.

(** The time [delay] waits, in milliseconds. *)
Definition delay_ms (net : Net) : Q := (200 + latency net * 1000)%Q.

(** [delay]: waits, then throws with probability 0.05. *)
Definition delay (net : Net) : outcome unit :=
  if Js.Qltb (fault net) (5 # 100) then Rejected NetworkError
  else Resolved tt.

(** *** seedData *)

(** The samples of [Math.random()] and the readings of [Date.now()], in
    the order of the calls. *)
Record Oracle := { random : nat → Q; now : nat → Z }.

Definition titles : list string :=
  ["Frontend Developer"; "Backend Engineer"; "Full Stack Developer";
   "DevOps Engineer"; "Product Manager"].

Definition tagPool : list string :=
  ["React"; "Node.js"; "TypeScript"; "AWS"; "Python"].

Definition stages : list string :=
  ["applied"; "screen"; "tech"; "offer"; "hired"; "rejected"].

Definition questionTypes : list string :=
  ["single-choice"; "multi-choice"; "short-text"; "long-text"; "numeric";
   "file-upload"].

(** The job built for index [i]; it draws samples [3i], [3i+1], [3i+2]. *)
Definition seed_job (o : Oracle) (i : nat) : record :=
  {[ "id" := VStr ("job-" +:+ pretty (i + 1)%nat);
     "title" := VStr (default "undefined" (titles !! (i `mod` 5)%nat)
                      +:+ " " +:+ pretty (i `div` 5 + 1)%nat);
     "slug" := VStr ("job-" +:+ pretty (i + 1)%nat +:+ "-slug");
     "status" := VStr (if Js.Qltb (3 # 10) (random o (3 * i)%nat)
                       then "active" else "archived");
     "tags" := VList (Js.slice tagPool 0
                        (Qfloor (random o (3 * i + 1)%nat * 3) + 1));
     "order" := VNum (Z.of_nat i + 1);
     "description" :=
       VStr "Lorem ipsum dolor sit amet, consectetur adipiscing elit.";
     "createdAt" :=
       VDate (Js.Qtrunc (inject_Z (now o i)
                         - random o (3 * i + 2)%nat * 2592000000)) ]}.

(** The candidate built for index [i]; its samples follow the 75 drawn
    for the jobs. *)
Definition seed_candidate (o : Oracle) (i : nat) : record :=
  {[ "id" := VStr ("candidate-" +:+ pretty (i + 1)%nat);
     "name" := VStr ("Candidate " +:+ pretty (i + 1)%nat);
     "email" := VStr ("candidate" +:+ pretty (i + 1)%nat +:+ "@email.com");
     "stage" :=
       match Js.at_index stages
               (Qfloor (random o (75 + 3 * i)%nat * 6)) with
       | Some s => VStr s
       | None => VUndef
       end;
     "jobId" :=
       VStr ("job-" +:+
             pretty (Qfloor (random o (75 + 3 * i + 1)%nat * 25) + 1));
     "appliedAt" :=
       VDate (Js.Qtrunc (inject_Z (now o (25 + i)%nat)
                         - random o (75 + 3 * i + 2)%nat * 5184000000));
     "notes" := VList [] ]}.

Definition seed_question (qIndex : nat) : Question :=
  let type := default "undefined" (questionTypes !! (qIndex `mod` 6)%nat) in
  {| q_id := "q-" +:+ pretty (qIndex + 1)%nat;
     q_type := type;
     q_question := "Question " +:+ pretty (qIndex + 1)%nat
                   +:+ ": What is your experience with...?";
     q_required := bool_decide (qIndex < 6)%nat;
     q_options :=
       if bool_decide (type ∈ ["single-choice"; "multi-choice"])
       then Some ["Beginner"; "Intermediate"; "Advanced"; "Expert"]
       else None;
     q_validation :=
       if bool_decide (type = "numeric") then Range 0 10
       else MaxLength 500 |}.

Definition seed_assessment (i : nat) : Assessment :=
  {| a_jobId := "job-" +:+ pretty i;
     a_title := "Assessment for Job " +:+ pretty i;
     a_sections :=
       [ {| s_id := "section-1";
            s_title := "Technical Skills";
            s_questions := map seed_question (seq 0 12) |} ] |}.

(** The keys of the seeded records. *)
Definition job_key (i : nat) : key := KStr ("job-" +:+ pretty (i + 1)%nat).
Definition candidate_key (i : nat) : key :=
  KStr ("candidate-" +:+ pretty (i + 1)%nat).
Definition assessment_job (i : nat) : key := KStr ("job-" +:+ pretty i).

(** [rs.forEach(r => store.add(r))] *)
Definition add_all {A} (keyOf : A → option key) (rs : list A) (s : ostore A)
  : option (ostore A) :=
  foldl (fun acc r => s' ← acc; add keyOf r s') (Some s) rs.

(** [seedData]: one read-write transaction over the three stores.  A
    failed request aborts the transaction and leaves the database as it
    was. *)
Definition seedData (o : Oracle) (db : DB) : DB :=
  let existingJobs := count (jobsStore db) in
  if 0 <? existingJobs then db
  else
    let jobs := map (seed_job o) (seq 0 25) in
    let candidates := map (seed_candidate o) (seq 0 1000) in
    let assessments := map seed_assessment (seq 1 3) in
    match add_all (key_at "id") jobs (jobsStore db),
          add_all (key_at "id") candidates (candidatesStore db),
          add_all assessment_key assessments (assessmentsStore db) with
    | Some js, Some cs, Some asm =>
        {| jobsStore := js; candidatesStore := cs; assessmentsStore := asm |}
    | _, _, _ => db
    end.

(** Two overlapping calls of [seedData].  Each call is one read-write
    transaction over the same stores, and the store runs such transactions
    one after the other: either call may come first. *)
Definition seedData_overlapping (first_goes_first : bool) (o1 o2 : Oracle)
  (db : DB) : DB :=
  if first_goes_first then seedData o2 (seedData o1 db)
  else seedData o1 (seedData o2 db).

(** *** Queries *)

(** The parameter object of [getJobs] and [getCandidates].  A field that
    is absent is [None]; [page] and [pageSize] hold the integer that
    [parseInt] reads, [None] when it reads none. *)
Record Params := {
  search : option string;
  status : option string;
  stage : option string;
  page : option Z;
  pageSize : option Z
}.

Record Pagination := {
  pg_page : Z;
  pg_pageSize : Z;
  pg_total : Z;
  pg_totalPages : Z
}.

Record PageResult := {
  data : list record;
  pagination : Pagination
}.

(** [if (s)] on an optional string: absent and empty strings are falsy. *)
Definition truthy (s : option string) : option string :=
  match s with
  | Some s => if String.eqb s "" then None else Some s
  | None => None
  end.

(** [n || d] after [parseInt]: [NaN] and [0] are falsy. *)
Definition or_default (n : option Z) (d : Z) : Z :=
  match n with
  | Some v => if v =? 0 then d else v
  | None => d
  end.

(** [r.field.toLowerCase().includes(needle)]; a field that is not a string
    has no [toLowerCase]. *)
Definition field_includes (field : string) (needle : string) (r : record)
  : outcome bool :=
  match r !! field with
  | Some (VStr t) => Resolved (Js.includes (Js.toLowerCase t) needle)
  | _ => Rejected TypeError
  end.

(** [r.field === s] *)
Definition field_is (field : string) (s : string) (r : record) : bool :=
  bool_decide (r !! field = Some (VStr s)).

Definition getJobs (net : Net) (db : DB) (params : Params)
  : outcome PageResult :=
  _ ← delay net;
  let jobs := getAll (jobsStore db) in
  filtered ← match truthy (search params) with
             | Some s =>
                 filterM (field_includes "title" (Js.toLowerCase s)) jobs
             | None => Resolved jobs
             end;
  let filtered := match truthy (status params) with
                  | Some st => List.filter (field_is "status" st) filtered
                  | None => filtered
                  end in
  let total := Z.of_nat (length filtered) in
  let page := or_default (page params) 1 in
  let pageSize := or_default (pageSize params) 10 in
  let start := (page - 1) * pageSize in
  let end_ := start + pageSize in
  Resolved
    {| data := Js.slice filtered start end_;
       pagination := {| pg_page := page;
                        pg_pageSize := pageSize;
                        pg_total := total;
                        pg_totalPages := Js.ceil_div total pageSize |} |}.

(** The callback of the candidate search: the e-mail is looked at only
    when the name does not match. *)
Definition name_or_email_includes (needle : string) (candidate : record)
  : outcome bool :=
  b ← field_includes "name" needle candidate;
  if (b : bool) then Resolved true
  else field_includes "email" needle candidate.

Definition getCandidates (net : Net) (db : DB) (params : Params)
  : outcome PageResult :=
  _ ← delay net;
  let candidates := getAll (candidatesStore db) in
  filtered ← match truthy (search params) with
             | Some s =>
                 let search := Js.toLowerCase s in
                 filterM (name_or_email_includes search) candidates
             | None => Resolved candidates
             end;
  let filtered := match truthy (stage params) with
                  | Some st => List.filter (field_is "stage" st) filtered
                  | None => filtered
                  end in
  let total := Z.of_nat (length filtered) in
  let page := or_default (page params) 1 in
  let pageSize := or_default (pageSize params) 50 in
  let start := (page - 1) * pageSize in
  let end_ := start + pageSize in
  Resolved
    {| data := Js.slice filtered start end_;
       pagination := {| pg_page := page;
                        pg_pageSize := pageSize;
                        pg_total := total;
                        pg_totalPages := Js.ceil_div total pageSize |} |}.

Definition getAssessment (net : Net) (db : DB) (jobId : value)
  : outcome (option Assessment) :=
  _ ← delay net;
  match to_key jobId with
  | Some k => Resolved (get k (assessmentsStore db))
  | None => Rejected DataError
  end.

(** *** Mutations: the outcome and the database afterwards *)

(** [createJob]; [now] is the reading of [Date.now()] and [today] the
    time of [new Date()].  The request of [store.add] is not awaited: a
    key that is taken leaves the store as it was and the job is returned
    all the same. *)
Definition createJob (net : Net) (now today : Z) (db : DB) (job : record)
  : outcome record * DB :=
  match delay net with
  | Rejected e => (Rejected e, db)
  | Resolved _ =>
      let newJob :=
        spread job {[ "id" := VStr ("job-" +:+ pretty now);
                      "createdAt" := VDate today ]} in
      let store := default (jobsStore db)
                     (add (key_at "id") newJob (jobsStore db)) in
      (Resolved newJob, set_jobs store db)
  end.

(** The body shared by [updateJob] and [updateCandidate], on the store of
    the collection; [{...undefined}] is the empty object. *)
Definition update (net : Net) (s : ostore record) (id : value)
  (updates : record) : outcome record * ostore record :=
  match delay net with
  | Rejected e => (Rejected e, s)
  | Resolved _ =>
      match to_key id with
      | None => (Rejected DataError, s)
      | Some k =>
          let existing := get k s in
          let updated := spread (default ∅ existing) updates in
          match put (key_at "id") updated s with
          | None => (Rejected DataError, s)
          | Some s' => (Resolved updated, s')
          end
      end
  end.

Definition updateJob (net : Net) (db : DB) (id : value) (updates : record)
  : outcome record * DB :=
  let '(res, s) := update net (jobsStore db) id updates in
  (res, set_jobs s db).

Definition updateCandidate (net : Net) (db : DB) (id : value)
  (updates : record) : outcome record * DB :=
  let '(res, s) := update net (candidatesStore db) id updates in
  (res, set_candidates s db).

(** [updateAssessment]: [{...assessment, jobId}] is put, an upsert at the
    key [jobId].  The views pass the id of a job, a string. *)
Definition updateAssessment (net : Net) (db : DB) (jobId : string)
  (assessment : Assessment) : outcome Assessment * DB :=
  match delay net with
  | Rejected e => (Rejected e, db)
  | Resolved _ =>
      let updatedAssessment :=
        {| a_jobId := jobId;
           a_title := a_title assessment;
           a_sections := a_sections assessment |} in
      match put assessment_key updatedAssessment (assessmentsStore db) with
      | Some s => (Resolved updatedAssessment, set_assessments s db)
      | None => (Rejected DataError, db)
      end
  end.

End MockAPI.

(** ** What the views tell the user *)

Inductive event :=
| Alert (message : string)          (* [alert(message)] *)
| ConsoleError (message : string).  (* [console.error(message, error)] *)

#[global] Instance event_eq_dec : EqDecision event.
Proof. solve_decision. Defined.

(** [r.field], [undefined] when the field is absent *)
Definition field (r : record) (name : string) : value :=
  default VUndef (r !! name).

(** [a === b] on the values of the model (ids and stages are strings). *)
Definition strict_eq (a b : value) : bool := bool_decide (a = b).

(** ** The jobs view *)

Module JobsView.

Import MockAPI.

Record State := {
  jobs : list record;
  loading : bool;
  filters : Params;
  pagination : option Pagination;
  draggedJob : option record;
  events : list event
}.

(** The state the component starts in. *)
Definition initial : State :=
  {| jobs := [];
     loading := true;
     filters := {| search := Some ""; status := Some ""; stage := None;
                   page := Some 1; pageSize := None |};
     pagination := None;
     draggedJob := None;
     events := [] |}.

Definition setJobs (l : list record) (st : State) : State :=
  {| jobs := l; loading := loading st; filters := filters st;
     pagination := pagination st; draggedJob := draggedJob st;
     events := events st |}.

Definition setLoading (b : bool) (st : State) : State :=
  {| jobs := jobs st; loading := b; filters := filters st;
     pagination := pagination st; draggedJob := draggedJob st;
     events := events st |}.

Definition setPagination (p : Pagination) (st : State) : State :=
  {| jobs := jobs st; loading := loading st; filters := filters st;
     pagination := Some p; draggedJob := draggedJob st;
     events := events st |}.

Definition setDraggedJob (j : option record) (st : State) : State :=
  {| jobs := jobs st; loading := loading st; filters := filters st;
     pagination := pagination st; draggedJob := j;
     events := events st |}.

Definition emit (e : event) (st : State) : State :=
  {| jobs := jobs st; loading := loading st; filters := filters st;
     pagination := pagination st; draggedJob := draggedJob st;
     events := events st ++ [e] |}.

(** [loadJobs], run to completion against the database [db]. *)
Definition loadJobs (net : Net) (db : DB) (st : State) : State :=
  let st := setLoading true st in
  let st :=
    match getJobs net db (filters st) with
    | Resolved response =>
        setPagination (MockAPI.pagination response)
          (setJobs (data response) st)
    | Rejected _ => emit (ConsoleError "Failed to load jobs:") st
    end in
  setLoading false st.

Definition handleDragStart (job : record) (st : State) : State :=
  setDraggedJob (Some job) st.

(** The list [handleDrop] shows at once: the dragged job taken out and put
    back at the index the target had.  [None] when nothing was taken out
    (an empty list): the list would then hold [undefined]. *)
Definition reorder (jobs : list record) (draggedJob targetJob : record)
  : option (list record) :=
  let optimisticJobs := jobs in
  let draggedIndex :=
    Js.findIndex (fun j => strict_eq (field j "id") (field draggedJob "id"))
      optimisticJobs in
  let targetIndex :=
    Js.findIndex (fun j => strict_eq (field j "id") (field targetJob "id"))
      optimisticJobs in
  let '(removed, optimisticJobs) :=
    Js.splice_remove1 optimisticJobs draggedIndex in
  match removed with
  | draggedItem :: _ =>
      Some (Js.splice_insert optimisticJobs targetIndex draggedItem)
  | [] => None
  end.

(** The part of [handleDrop] that runs at once.  The second component
    tells whether a reorder was begun. *)
Definition begin (st : State) (targetJob : record) : option (State * bool) :=
  match draggedJob st with
  | None => Some (st, false)
  | Some dragged =>
      if strict_eq (field dragged "id") (field targetJob "id")
      then Some (st, false)
      else
        optimisticJobs ← reorder (jobs st) dragged targetJob;
        Some (setJobs optimisticJobs st, true)
  end.

(** The simulated reorder call: it fails when the sample is below 0.1. *)
Definition reorder_fails (sample : Q) : bool := Js.Qltb sample (1 # 10).

(** The [catch] branch of [handleDrop]: reload the jobs and tell the
    user. *)
Definition rollback (net : Net) (db : DB) (st : State) : State :=
  loadJobs net db (emit (Alert "Reorder failed, rolling back...") st).

(** [handleDrop] run to completion: [sample] decides the simulated call,
    [net] is drawn by the reload of the [catch] branch.  The database is
    only read. *)
Definition handleDrop (sample : Q) (net : Net) (db : DB) (st : State)
  (targetJob : record) : option State :=
  '(st, begun) ← begin st targetJob;
  if (begun : bool) then
    let st := if reorder_fails sample then rollback net db st else st in
    Some (setDraggedJob None st)
  else Some st.

End JobsView.

(** ** The Kanban board *)

Module KanbanBoard.

Import MockAPI.

(** One call of [handleDrop(stage)]: the candidate being dragged, the
    stage it is dropped on, the time of the drop and the samples its
    [updateCandidate] draws. *)
Record Drop := {
  issued : Q;
  draggedCandidate : record;
  target : string;
  net : Net
}.

(** The time at which the awaited [delay] of the drop's update ends and
    its store transaction runs. *)
Definition completes (d : Drop) : Q := (issued d + delay_ms (net d))%Q.

(** What the drop does to the database once its delay has ended, with the
    events it raises.  A drop on the stage the candidate shows is
    ignored.  The reload of the list that follows a successful update
    reads the database and is left out. *)
Definition settle (d : Drop) (w : DB * list event) : DB * list event :=
  let '(db, evs) := w in
  if strict_eq (field (draggedCandidate d) "stage") (VStr (target d))
  then (db, evs)
  else
    match updateCandidate (net d) db (field (draggedCandidate d) "id")
            {[ "stage" := VStr (target d) ]} with
    | (Resolved _, db') => (db', evs)
    | (Rejected _, db') =>
        (db', evs ++ [Alert "Failed to update candidate stage"])
    end.

(** Drops in flight, ordered by the time their delay ends: timers fire
    in the order of their due times, and of two due at the same time the
    one set first fires first. *)
Fixpoint enqueue (d : Drop) (queue : list Drop) : list Drop :=
  match queue with
  | [] => [d]
  | d' :: queue' =>
      if Js.Qltb (completes d) (completes d') then d :: d' :: queue'
      else d' :: enqueue d queue'
  end.

Definition schedule (ds : list Drop) : list Drop :=
  foldl (fun queue d => enqueue d queue) [] ds.

(** The drops [ds], given in the order they are made, all in flight at
    once. *)
Definition run (ds : list Drop) (db : DB) : DB * list event :=
  foldl (fun w d => settle d w) (db, []) (schedule ds).

(** The stage the store holds for the candidate with id [id]. *)
Definition stored_stage (db : DB) (id : string) : option value :=
  r ← Store.get (Store.KStr id) (candidatesStore db); r !! "stage".

(** [candidatesByStage]: one column for each of the six stages, holding
    the candidates whose stage it is. *)
Definition candidatesByStage (candidates : list record)
  : gmap string (list record) :=
  foldl (fun acc stage =>
           <[stage := List.filter
                        (fun c => strict_eq (field c "stage") (VStr stage))
                        candidates]> acc)
    ∅ stages.

End KanbanBoard.

(** ** The form that creates a job *)

Module CreateJobModal.

Import MockAPI.

Record FormData := {
  title : string;
  slug : string;
  tags : string;
  f_status : string
}.

(** [s.split(',')] *)
Fixpoint split_commas (s : string) : list string :=
  match s with
  | EmptyString => [EmptyString]
  | String c s' =>
      match split_commas s' with
      | w :: ws =>
          if Ascii.eqb c "," then EmptyString :: w :: ws
          else String c w :: ws
      | [] => []
      end
  end.

(** [s.replace(/\s+/g, '-')] *)
Fixpoint dash_spaces (s : string) : string :=
  match s with
  | EmptyString => EmptyString
  | String c s' =>
      if Js.is_space c then
        match s' with
        | String c' _ =>
            if Js.is_space c' then dash_spaces s'
            else String "-" (dash_spaces s')
        | EmptyString => String "-" EmptyString
        end
      else String c (dash_spaces s')
  end.

(** The payload [handleSubmit] passes to [createJob]. *)
Definition payload (formData : FormData) : record :=
  {[ "title" := VStr (title formData);
     "slug" := VStr (if String.eqb (slug formData) ""
                     then dash_spaces (Js.toLowerCase (title formData))
                     else slug formData);
     "tags" := VList (List.filter (fun t => negb (String.eqb t ""))
                        (map Js.trim (split_commas (tags formData))));
     "status" := VStr (f_status formData) ]}.

Record Result := {
  db_after : DB;
  raised : list event;
  created : bool    (* [onCreated()] was called *)
}.

Definition handleSubmit (net : Net) (now today : Z) (db : DB)
  (formData : FormData) : Result :=
  if String.eqb (Js.trim (title formData)) "" then
    {| db_after := db; raised := [Alert "Title is required"];
       created := false |}
  else
    match createJob net now today db (payload formData) with
    | (Resolved _, db') =>
        {| db_after := db'; raised := []; created := true |}
    | (Rejected _, db') =>
        {| db_after := db'; raised := [Alert "Failed to create job"];
           created := false |}
    end.

End CreateJobModal.

(** ** The detail view of a candidate *)

Module CandidateDetail.

Import MockAPI.

Record State := {
  candidate : option record;
  loading : bool;
  events : list event
}.

Definition initial : State :=
  {| candidate := None; loading := true; events := [] |}.

(** [loadCandidate]: the candidates are searched for the id, and the one
    with that id is looked for among those returned. *)
Definition loadCandidate (net : Net) (db : DB) (candidateId : string)
  (st : State) : State :=
  match getCandidates net db
          {| search := Some candidateId; status := None; stage := None;
             page := None; pageSize := None |} with
  | Resolved response =>
      {| candidate :=
           List.find (fun c => strict_eq (field c "id") (VStr candidateId))
             (data response);
         loading := false;
         events := events st |}
  | Rejected _ =>
      {| candidate := candidate st;
         loading := false;
         events := events st ++ [ConsoleError "Failed to load candidate:"] |}
  end.

End CandidateDetail.

(** ** The list of assessments *)

Module AssessmentsView.

Import MockAPI.

Record State := {
  jobs : list record;
  loading : bool;
  events : list event
}.

Definition initial : State := {| jobs := []; loading := true; events := [] |}.

(** [loadJobs]: the active jobs are asked for; page and page size are
    left to their defaults and the pagination of the answer is not
    read. *)
Definition loadJobs (net : Net) (db : DB) (st : State) : State :=
  match getJobs net db
          {| search := None; status := Some "active"; stage := None;
             page := None; pageSize := None |} with
  | Resolved response =>
      {| jobs := data response; loading := false; events := events st |}
  | Rejected _ =>
      {| jobs := jobs st;
         loading := false;
         events := events st ++ [ConsoleError "Failed to load jobs:"] |}
  end.

End AssessmentsView.

(** ** The assessment builder *)

Module AssessmentBuilder.

Import MockAPI.

Record State := {
  assessment : option Assessment;
  loading : bool;
  events : list event
}.

Definition initial : State :=
  {| assessment := None; loading := true; events := [] |}.

(** The assessment shown when the job has none yet. *)
Definition blank (jobId : string) : Assessment :=
  {| a_jobId := jobId; a_title := "New Assessment"; a_sections := [] |}.

Definition loadAssessment (net : Net) (db : DB) (jobId : string) (st : State)
  : State :=
  match getAssessment net db (VStr jobId) with
  | Resolved data =>
      {| assessment := Some (default (blank jobId) data);
         loading := false;
         events := events st |}
  | Rejected _ =>
      {| assessment := assessment st;
         loading := false;
         events := events st ++ [ConsoleError "Failed to load assessment:"] |}
  end.

(** [saveAssessment], for a builder that holds an assessment (without
    one the editor is not rendered and there is nothing to save). *)
Definition saveAssessment (net : Net) (db : DB) (jobId : string)
  (current : Assessment) (st : State) : State * DB :=
  match updateAssessment net db jobId current with
  | (Resolved _, db') =>
      ({| assessment := assessment st; loading := loading st;
          events := events st ++ [Alert "Assessment saved successfully!"] |},
       db')
  | (Rejected _, db') =>
      ({| assessment := assessment st; loading := loading st;
          events := events st ++ [Alert "Failed to save assessment"] |},
       db')
  end.

End AssessmentBuilder.

(** ** The assessment editor *)

Module AssessmentEditor.

(** The new assessment the editor hands to [onChange]. *)
Definition with_sections (assessment : Assessment) (sections : list Section_)
  : Assessment :=
  {| a_jobId := a_jobId assessment;
     a_title := a_title assessment;
     a_sections := sections |}.

(** [addSection]; [now] is the reading of [Date.now()]. *)
Definition addSection (now : Z) (assessment : Assessment) : Assessment :=
  let newSection :=
    {| s_id := "section-" +:+ pretty now;
       s_title := "New Section";
       s_questions := [] |} in
  with_sections assessment (a_sections assessment ++ [newSection]).

(** The updates [updateSection] is called with: a new title, or a new
    list of questions. *)
Record SectionUpdates := {
  u_title : option string;
  u_questions : option (list Question)
}.

(** [{...section, ...updates}] *)
Definition merge_section (section : Section_) (updates : SectionUpdates)
  : Section_ :=
  {| s_id := s_id section;
     s_title := default (s_title section) (u_title updates);
     s_questions := default (s_questions section) (u_questions updates) |}.

Definition updateSection (sectionId : string) (updates : SectionUpdates)
  (assessment : Assessment) : Assessment :=
  with_sections assessment
    (map (fun section =>
            if String.eqb (s_id section) sectionId
            then merge_section section updates
            else section)
       (a_sections assessment)).

(** The [onChange] given to the editor of [question] in [section]: the
    questions with the id of [question] are replaced by the updated
    one. *)
Definition replaceQuestion (section : Section_) (question : Question)
  (updatedQuestion : Question) (assessment : Assessment) : Assessment :=
  updateSection (s_id section)
    {| u_title := None;
       u_questions :=
         Some (map (fun q =>
                      if String.eqb (q_id q) (q_id question)
                      then updatedQuestion else q)
                 (s_questions section)) |}
    assessment.

End AssessmentEditor.

(** ** The editor of one question *)

Module QuestionEditor.

Definition newline : ascii := ascii_of_nat 10.

(** [c] is not a line break *)
Definition not_newline (c : ascii) : bool := negb (Ascii.eqb c newline).

(** The text shown for the options: [question.options?.join('\n') || ''] *)
Definition optionsText (question : Question) : string :=
  match q_options question with
  | Some options => Js.join (String newline EmptyString) options
  | None => EmptyString
  end.

(** The options read from the text: [text.split('\n').filter(Boolean)] *)
Definition parseOptions (text : string) : list string :=
  Js.filter_nonempty (Js.split newline text).

(** The [onChange] of the text area: [{...question, options: ...}] *)
Definition setOptionsText (question : Question) (text : string) : Question :=
  {| q_id := q_id question;
     q_type := q_type question;
     q_question := q_question question;
     q_required := q_required question;
     q_options := Some (parseOptions text);
     q_validation := q_validation question |}.

End QuestionEditor.

(** ** The input of a question in the preview *)

Module QuestionInput.



End QuestionInput.

(** ** Predicates on text *)

Module Text.

(** every character of [s] satisfies [p] *)
Fixpoint every_char (p : ascii → bool) (s : string) : bool :=
  match s with
  | EmptyString => true
  | String c s' => p c && every_char p s'
  end.

(** [c] is not a hyphen *)
Definition no_hyphen (c : ascii) : bool := negb (Ascii.eqb c "-").

(** [c] is a capital letter *)
Definition is_upper (c : ascii) : bool :=
  let n := nat_of_ascii c in ((65 <=? n)%nat && (n <=? 90)%nat)%bool.

Definition not_upper (c : ascii) : bool := negb (is_upper c).

(** [c] is not white space, and not a comma *)
Definition not_space (c : ascii) : bool := negb (Js.is_space c).
Definition not_comma (c : ascii) : bool := negb (Ascii.eqb c ",").

(** the first character of [s], if any, satisfies [p] *)
Definition first_char (p : ascii → bool) (s : string) : bool :=
  match s with
  | EmptyString => true
  | String c _ => p c
  end.

(** the last character of [s], if any, satisfies [p] *)
Fixpoint last_char (p : ascii → bool) (s : string) : bool :=
  match s with
  | EmptyString => true
  | String c EmptyString => p c
  | String _ s' => last_char p s'
  end.

End Text.


(** ** The query engine, in the words of the specification *)

Module QueryEngine.

Import MockAPI.

(** [r.name] is a string *)
Definition is_string (name : string) (r : record) : bool :=
  match r !! name with
  | Some (VStr _) => true
  | _ => false
  end.

(** [needle], in lower case, occurs in the lower-cased text of the field *)
Definition text_matches (name needle : string) (r : record) : bool :=
  match r !! name with
  | Some (VStr t) => Js.includes (Js.toLowerCase t) (Js.toLowerCase needle)
  | _ => false
  end.

(** The filter of the job query: search on the title, exact status. *)
Definition matches_job (params : Params) (job : record) : bool :=
  match truthy (search params) with
  | Some s => text_matches "title" s job
  | None => true
  end
  &&
  match truthy (status params) with
  | Some st => field_is "status" st job
  | None => true
  end.

(** The filter of the candidate query: search on the name or the e-mail,
    exact stage. *)
Definition matches_candidate (params : Params) (candidate : record) : bool :=
  match truthy (search params) with
  | Some s => text_matches "name" s candidate
              || text_matches "email" s candidate
  | None => true
  end
  &&
  match truthy (stage params) with
  | Some st => field_is "stage" st candidate
  | None => true
  end.

(** The time a record was created, from its [createdAt] field. *)
Definition created (r : record) : Z :=
  match r !! "createdAt" with
  | Some (VDate ms) => ms
  | _ => 0
  end.

Fixpoint insert_by_creation (r : record) (l : list record) : list record :=
  match l with
  | [] => [r]
  | r' :: l' =>
      if created r <? created r' then r :: r' :: l'
      else r' :: insert_by_creation r l'
  end.

(** The stable sort by creation time the specification asks for. *)
Definition sort_by_creation (l : list record) : list record :=
  foldr insert_by_creation [] l.

(** The slice [[(page-1)*pageSize, page*pageSize)] of a list. *)
Definition window {A} (page pageSize : Z) (l : list A) : list A :=
  take (Z.to_nat pageSize) (drop (Z.to_nat ((page - 1) * pageSize)) l).

(** The same parameters asking for page [i]. *)
Definition with_page (params : Params) (i : Z) : Params :=
  {| search := search params; status := status params;
     stage := stage params; page := Some i; pageSize := pageSize params |}.

(** The records a query returned, none when it failed. *)
Definition page_data (o : outcome PageResult) : list record :=
  match o with
  | Resolved res => data res
  | Rejected _ => []
  end.

(** What the specification asks of the query [get] over the list
    [sorted] of the records that pass the filter: the page returned is
    the slice of [sorted], the counts describe it, a page past the last
    is empty, and the pages split [sorted]: position [k] of page [i] is
    position [(i-1)*pageSize + k] of [sorted], and the pages in a row
    rebuild it. *)
Definition paginates (dflt : Z) (get : Params → outcome PageResult)
  (sorted : list record) (params : Params) : Prop :=
  let p := or_default (page params) 1 in
  let P := or_default (pageSize params) dflt in
  ∃ res,
    get params = Resolved res
    ∧ data res = window p P sorted
    ∧ pg_page (pagination res) = p
    ∧ pg_pageSize (pagination res) = P
    ∧ pg_total (pagination res) = Z.of_nat (length sorted)
    ∧ (pg_totalPages (pagination res) - 1) * P
        < Z.of_nat (length sorted) ≤ pg_totalPages (pagination res) * P
    ∧ (pg_totalPages (pagination res) < p → data res = [])
    ∧ (∀ i k : Z, 1 ≤ i → 0 ≤ k < P →
         page_data (get (with_page params i)) !! Z.to_nat k
         = sorted !! Z.to_nat ((i - 1) * P + k))
    ∧ (∀ i : Z, 1 ≤ i →
         (length (page_data (get (with_page params i))) ≤ Z.to_nat P)%nat)
    ∧ flat_map (fun i => page_data (get (with_page params i)))
        (seqZ 1 (pg_totalPages (pagination res))) = sorted.

(** The result both queries build from the filtered list. *)
Definition page_result (dflt : Z) (params : Params) (filtered : list record)
  : PageResult :=
  let total := Z.of_nat (length filtered) in
  let page := or_default (page params) 1 in
  let pageSize := or_default (pageSize params) dflt in
  let start := (page - 1) * pageSize in
  let end_ := start + pageSize in
  {| data := Js.slice filtered start end_;
     pagination := {| pg_page := page;
                      pg_pageSize := pageSize;
                      pg_total := total;
                      pg_totalPages := Js.ceil_div total pageSize |} |}.

End QueryEngine.

(** ** Scenarios used as examples *)

Module Scenario.

Import Store MockAPI.

(** Samples of [delay]: no failure, and an injected failure. *)
Definition calm : Net := {| latency := 0; fault := 1 # 2 |}.
Definition faulty : Net := {| latency := 0; fault := 1 # 100 |}.

(** Three jobs and the view that has loaded them. *)
Definition job_a : record :=
  {[ "id" := VStr "job-1"; "title" := VStr "Frontend Developer 1";
     "status" := VStr "active"; "order" := VNum 1 ]}.
Definition job_b : record :=
  {[ "id" := VStr "job-2"; "title" := VStr "Backend Engineer 1";
     "status" := VStr "active"; "order" := VNum 2 ]}.
Definition job_c : record :=
  {[ "id" := VStr "job-3"; "title" := VStr "Full Stack Developer 1";
     "status" := VStr "active"; "order" := VNum 3 ]}.

Definition three_jobs : DB :=
  set_jobs [(KStr "job-1", job_a); (KStr "job-2", job_b);
            (KStr "job-3", job_c)] empty_db.

Definition loaded : JobsView.State :=
  JobsView.loadJobs calm three_jobs JobsView.initial.

(** Candidate 1 is dragged to "screen" and, a tenth of a second later,
    to "tech"; the first update waits 1200 ms, the second 200 ms. *)
Definition candidate_1 : record :=
  {[ "id" := VStr "candidate-1"; "name" := VStr "Candidate 1";
     "email" := VStr "candidate1@email.com"; "stage" := VStr "applied" ]}.

Definition one_candidate : DB :=
  set_candidates [(KStr "candidate-1", candidate_1)] empty_db.

Definition to_screen : KanbanBoard.Drop :=
  {| KanbanBoard.issued := 0;
     KanbanBoard.draggedCandidate := candidate_1;
     KanbanBoard.target := "screen";
     KanbanBoard.net := {| latency := 1; fault := 1 # 2 |} |}.

Definition to_tech : KanbanBoard.Drop :=
  {| KanbanBoard.issued := 100;
     KanbanBoard.draggedCandidate := candidate_1;
     KanbanBoard.target := "tech";
     KanbanBoard.net := {| latency := 0; fault := 1 # 2 |} |}.

End Scenario.

(** * Properties *)

(** Closed facts about concrete stores and views are settled by
    evaluation of the decision procedure of the statement. *)
Ltac by_evaluation :=
  match goal with
  | |- ?P => refine (@bool_decide_eq_true_1 P _ _); vm_compute; reflexivity
  end.

(** ** Strings *)

Section Strings.

Lemma append_cons (c : ascii) (t b : string) :
  (String c t +:+ b)%string = String c (t +:+ b).
Proof. reflexivity. Qed.

Lemma startsWith_app (s t : string) :
  Js.startsWith s t = true ↔ ∃ b, s = (t +:+ b)%string.
Proof.
  revert s; induction t as [|c t IH]; intros s; simpl.
  - split; [intros _; by exists s | done].
  - destruct s as [|a s]; simpl.
    + split; [done | intros [b Hb]; discriminate].
    + destruct (Ascii.eqb_spec a c) as [->|Hne].
      * rewrite IH. split; intros [b Hb]; exists b;
          rewrite append_cons in *; congruence.
      * split; [done | intros [b Hb]; rewrite append_cons in Hb; congruence].
Qed.

(** [includes] is the substring test. *)
Lemma includes_substring (s t : string) :
  Js.includes s t = true ↔ ∃ a b, s = (a +:+ t +:+ b)%string.
Proof.
  induction s as [|c s IH]; simpl.
  - rewrite orb_false_r, startsWith_app. split.
    + intros [b Hb]. by exists EmptyString, b.
    + intros [a [b Hab]]. destruct a; [by exists b | discriminate].
  - rewrite orb_true_iff, startsWith_app, IH. split.
    + intros [[b Hb] | [a [b Hab]]].
      * by exists EmptyString, b.
      * exists (String c a), b. by rewrite append_cons, Hab.
    + intros [a [b Hab]]. destruct a as [|c' a].
      * left. by exists b.
      * right. exists a, b. rewrite append_cons in Hab. congruence.
Qed.

End Strings.

(** ** Slices and pages *)

Section Pages.

Context {A : Type}.
Implicit Types l : list A.

(** With a start and a size that are not negative, [slice] is the
    window of [size] elements that begins at [start]. *)
Lemma slice_window l (start size : Z) :
  0 ≤ start → 0 ≤ size →
  Js.slice l start (start + size)
  = take (Z.to_nat size) (drop (Z.to_nat start) l).
Proof.
  intros Hs Hz. unfold Js.slice, Js.relative_index.
  destruct (Z.ltb_spec start 0) as [|_]; [lia |].
  destruct (Z.ltb_spec (start + size) 0) as [|_]; [lia |].
  set (len := Z.of_nat (length l)).
  destruct (Z_lt_le_dec start len) as [Hlt | Hge].
  - rewrite (Z.min_l start len) by lia.
    destruct (Z_le_gt_dec (start + size) len) as [Hin | Hout].
    + rewrite Z.min_l by lia. do 2 f_equal. lia.
    + rewrite Z.min_r by lia.
      rewrite !take_ge; [done | |]; rewrite length_drop; subst len; lia.
  - rewrite (Z.min_r start len), Z.min_r by lia.
    rewrite Z.sub_diag. simpl.
    rewrite (drop_ge l (Z.to_nat start)) by (subst len; lia).
    by rewrite take_nil.
Qed.

(** Consecutive windows of [P] elements rebuild the list. *)
Lemma windows_concat (P n : nat) l :
  (length l ≤ n * P)%nat →
  flat_map (fun i => take P (drop (i * P) l)) (seq 0 n) = l.
Proof.
  revert l. induction n as [|n IH]; intros l Hlen.
  - destruct l; [done | simpl in Hlen; lia].
  - rewrite <- cons_seq, <- fmap_S_seq. simpl.
    rewrite drop_0. etransitivity; [| apply (take_drop P l)]. f_equal.
    etransitivity; [| apply (IH (drop P l)); rewrite length_drop; lia].
    rewrite !flat_map_concat_map, <- list_fmap_compose. f_equal.
    apply list_fmap_ext. intros _ i _. simpl.
    by rewrite drop_drop.
Qed.

(** [ceil_div total P] is the least number of pages of [P] elements that
    hold [total] elements. *)
Lemma ceil_div_bounds (total P : Z) :
  0 < P →
  (Js.ceil_div total P - 1) * P < total ≤ Js.ceil_div total P * P.
Proof.
  intros HP. unfold Js.ceil_div.
  pose proof (Z.div_mod (- total) P ltac:(lia)).
  pose proof (Z.mod_pos_bound (- total) P HP). nia.
Qed.

Lemma ceil_div_nonneg (total P : Z) :
  0 < P → 0 ≤ total → 0 ≤ Js.ceil_div total P.
Proof. intros HP Ht. pose proof (ceil_div_bounds total P HP). nia. Qed.

End Pages.

(** ** Queries *)

Section Queries.

Import MockAPI QueryEngine.

Lemma filterM_total {A} (f : A → outcome bool) (g : A → bool) (l : list A) :
  Forall (fun x => f x = Resolved (g x)) l →
  filterM f l = Resolved (List.filter g l).
Proof.
  induction 1 as [|x l Hx _ IH]; simpl; [done |].
  rewrite Hx, IH. simpl. by destruct (g x).
Qed.

Lemma filter_filter {A} (f g : A → bool) (l : list A) :
  List.filter g (List.filter f l) = List.filter (fun x => f x && g x) l.
Proof.
  induction l as [|x l IH]; simpl; [done |].
  destruct (f x); simpl; [destruct (g x) |]; by rewrite IH.
Qed.

Lemma filter_true {A} (l : list A) : List.filter (fun _ => true) l = l.
Proof. induction l; simpl; congruence. Qed.

(** The filter is a case-insensitive substring test and an exact match. *)
Lemma text_matches_iff (name needle : string) (r : record) :
  text_matches name needle r = true
  ↔ ∃ t a b, r !! name = Some (VStr t)
             ∧ Js.toLowerCase t
               = (a +:+ Js.toLowerCase needle +:+ b)%string.
Proof.
  unfold text_matches. split.
  - destruct (r !! name) as [[]|] eqn:E; try done.
    intros (a & b & Hab)%includes_substring. by exists s, a, b.
  - intros (t & a & b & -> & Hab). apply includes_substring. by exists a, b.
Qed.

Lemma field_is_iff (name s : string) (r : record) :
  field_is name s r = true ↔ r !! name = Some (VStr s).
Proof. unfold field_is. by rewrite bool_decide_eq_true. Qed.

(** Without an injected failure, and every job having a title,
    [getJobs] builds its result from the jobs that pass the filter, in
    the order of the store. *)
Lemma getJobs_resolved (net : Net) (db : DB) (params : Params) :
  delay net = Resolved tt →
  Forall (fun r => is_string "title" r = true) (Store.getAll (jobsStore db)) →
  getJobs net db params
  = Resolved (page_result 10 params
                (List.filter (matches_job params)
                   (Store.getAll (jobsStore db)))).
Proof.
  intros Hnet Hty. unfold getJobs. rewrite Hnet. simpl.
  unfold matches_job.
  destruct (truthy (search params)) as [s|].
  - rewrite (filterM_total _ (text_matches "title" s)).
    + simpl. destruct (truthy (status params)) as [st|].
      * by rewrite filter_filter.
      * by rewrite (filter_ext _ _
                      (fun r => andb_true_r (text_matches "title" s r))).
    + eapply Forall_impl; [exact Hty |]. intros r Hr.
      unfold field_includes, text_matches, is_string in *.
      by destruct (r !! "title") as [[]|].
  - simpl. destruct (truthy (status params)) as [st|]; [done |].
    by rewrite filter_true.
Qed.

Lemma getCandidates_resolved (net : Net) (db : DB) (params : Params) :
  delay net = Resolved tt →
  Forall (fun r => is_string "name" r = true ∧ is_string "email" r = true)
    (Store.getAll (candidatesStore db)) →
  getCandidates net db params
  = Resolved (page_result 50 params
                (List.filter (matches_candidate params)
                   (Store.getAll (candidatesStore db)))).
Proof.
  intros Hnet Hty. unfold getCandidates. rewrite Hnet. simpl.
  unfold matches_candidate.
  destruct (truthy (search params)) as [s|].
  - rewrite (filterM_total _ (fun r => text_matches "name" s r
                                       || text_matches "email" s r)).
    + simpl. destruct (truthy (stage params)) as [st|].
      * by rewrite filter_filter.
      * by rewrite (filter_ext _ _
                      (fun r => andb_true_r (text_matches "name" s r
                                             || text_matches "email" s r))).
    + eapply Forall_impl; [exact Hty |]. intros r [Hn He].
      unfold name_or_email_includes, field_includes, text_matches,
        is_string in *.
      destruct (r !! "name") as [[]|]; try done.
      destruct (r !! "email") as [[]|]; try done.
      simpl. by destruct (Js.includes _ _).
  - simpl. destruct (truthy (stage params)) as [st|]; [done |].
    by rewrite filter_true.
Qed.

(** The result built from a list [F] meets the specification of a
    paginated query over [F]. *)
Lemma page_result_paginates (dflt : Z) (get : Params → outcome PageResult)
  (F : list record) (params : Params) :
  get params = Resolved (page_result dflt params F) →
  (∀ i, get (with_page params i)
        = Resolved (page_result dflt (with_page params i) F)) →
  1 ≤ or_default (page params) 1 →
  1 ≤ or_default (pageSize params) dflt →
  paginates dflt get F params.
Proof.
  intros Hget0 Hget Hp HP. unfold paginates.
  set (p := or_default (page params) 1) in *.
  set (P := or_default (pageSize params) dflt) in *.
  assert (Hpage : ∀ i, 1 ≤ i →
            page_data (get (with_page params i)) = window i P F).
  { intros i Hi. rewrite Hget. unfold page_result, page_data, window.
    cbn [data with_page page pageSize or_default].
    destruct (Z.eqb_spec i 0) as [|_]; [lia |]. fold P.
    apply slice_window; nia. }
  pose proof (ceil_div_bounds (Z.of_nat (length F)) P ltac:(lia)) as Hb.
  pose proof (ceil_div_nonneg (Z.of_nat (length F)) P ltac:(lia)
                ltac:(lia)) as Hn.
  set (tp := Js.ceil_div (Z.of_nat (length F)) P) in *.
  exists (page_result dflt params F).
  assert (Hdata : data (page_result dflt params F) = window p P F).
  { unfold page_result, window. cbn [data]. fold p P.
    apply slice_window; nia. }
  split; [apply Hget0 |]. split; [exact Hdata |].
  do 3 (split; [reflexivity |]).
  cbn [pagination page_result pg_totalPages]. fold P tp.
  split; [exact Hb |]. split; [| split; [| split]].
  - intros Hlt. rewrite Hdata. unfold window.
    rewrite drop_ge; [by rewrite take_nil | nia].
  - intros i k Hi Hk. rewrite Hpage by done. unfold window.
    rewrite lookup_take_lt by lia. rewrite lookup_drop. f_equal. nia.
  - intros i Hi. rewrite Hpage by done. unfold window.
    rewrite length_take. lia.
  - unfold seqZ. rewrite flat_map_concat_map, <- list_fmap_compose.
    rewrite <- flat_map_concat_map.
    etransitivity; [| apply (windows_concat (Z.to_nat P) (Z.to_nat tp) F); nia].
    apply flat_map_ext. intros i. simpl.
    rewrite Hpage by lia. unfold window. do 2 f_equal. nia.
Qed.

End Queries.

(** ** C1: filtered, paginated queries *)

Section QueryClaim.

Import Store MockAPI QueryEngine.

Lemma or_default_pageSize (n : option Z) (d d' : Z) :
  1 ≤ d' → 1 ≤ or_default n d → 1 ≤ or_default n d'.
Proof.
  unfold or_default. destruct n as [v|]; [| done].
  destruct (Z.eqb_spec v 0); [done | lia].
Qed.

Lemma and_iff (A A' B B' : Prop) :
  (A ↔ A') → (B ↔ B') → (A ∧ B ↔ A' ∧ B').
Proof. tauto. Qed.

(** C1 (amended): without an injected failure, the text fields that are
    searched being strings, and page and page size being positive,
    [getJobs] and [getCandidates] keep the records of the store that
    match (the lower-cased search text occurs in the lower-cased title,
    or name or e-mail; the status, or stage, is the one asked for), in
    the order the store lists them and without sorting; they return the
    slice [(page-1)*pageSize, page*pageSize) of that list, the number of
    matches as total, and the least number of pages that holds them as
    totalPages; page defaults to 1 and the page size to 10 for jobs and
    50 for candidates; a page past the last is empty, and the pages are
    disjoint slices that rebuild the list when put in a row. *)
Theorem queries_paginate_in_store_order (net : Net) (db : DB)
  (params : Params) :
  delay net = Resolved tt →
  Forall (fun r => is_string "title" r = true) (getAll (jobsStore db)) →
  Forall (fun r => is_string "name" r = true ∧ is_string "email" r = true)
    (getAll (candidatesStore db)) →
  1 ≤ or_default (page params) 1 →
  1 ≤ or_default (pageSize params) 10 →
  (∀ job, matches_job params job = true ↔
     (∀ s, truthy (search params) = Some s →
        ∃ t a b, job !! "title" = Some (VStr t)
                 ∧ Js.toLowerCase t
                   = (a +:+ Js.toLowerCase s +:+ b)%string)
     ∧ (∀ st, truthy (status params) = Some st →
          job !! "status" = Some (VStr st)))
  ∧ (∀ c, matches_candidate params c = true ↔
       (∀ s, truthy (search params) = Some s →
          ∃ name t a b, (name = "name" ∨ name = "email")
                   ∧ c !! name = Some (VStr t)
                   ∧ Js.toLowerCase t
                     = (a +:+ Js.toLowerCase s +:+ b)%string)
       ∧ (∀ st, truthy (stage params) = Some st →
            c !! "stage" = Some (VStr st)))
  ∧ paginates 10 (getJobs net db)
      (List.filter (matches_job params) (getAll (jobsStore db))) params
  ∧ paginates 50 (getCandidates net db)
      (List.filter (matches_candidate params) (getAll (candidatesStore db)))
      params
  ∧ (page params = None → or_default (page params) 1 = 1)
  ∧ (pageSize params = None →
     or_default (pageSize params) 10 = 10
     ∧ or_default (pageSize params) 50 = 50).
Proof.
  intros Hnet Hjobs Hcands Hp HP.
  split; [| split; [| split; [| split; [| split]]]].
  - intros job. unfold matches_job. rewrite andb_true_iff. apply and_iff.
    + destruct (truthy (search params)) as [s|].
      * rewrite text_matches_iff. split; [intros H s' [= <-]; exact H |].
        intros H. by apply H.
      * split; [by intros _ s' |done].
    + destruct (truthy (status params)) as [st|].
      * rewrite field_is_iff. split; [by intros H st' [= <-] |].
        intros H. by apply H.
      * split; [by intros _ st' | done].
  - intros c. unfold matches_candidate. rewrite andb_true_iff.
    apply and_iff.
    + destruct (truthy (search params)) as [s|].
      * rewrite orb_true_iff, !text_matches_iff. split.
        -- intros [(t & a & b & Ht & Hab) | (t & a & b & Ht & Hab)] s' [= <-].
           ++ exists "name", t, a, b. auto.
           ++ exists "email", t, a, b. auto.
        -- intros H. destruct (H s eq_refl) as (n & t & a & b & [->| ->] & Ht & Hab).
           ++ left. by exists t, a, b.
           ++ right. by exists t, a, b.
      * split; [by intros _ s' | done].
    + destruct (truthy (stage params)) as [st|].
      * rewrite field_is_iff. split; [by intros H st' [= <-] |].
        intros H. by apply H.
      * split; [by intros _ st' | done].
  - apply page_result_paginates; [| | done | done].
    + by apply getJobs_resolved.
    + intros i. by apply (getJobs_resolved net db (with_page params i)).
  - apply page_result_paginates;
      [| | done | by apply (or_default_pageSize _ 10)].
    + by apply getCandidates_resolved.
    + intros i.
      by apply (getCandidates_resolved net db (with_page params i)).
  - by intros ->.
  - by intros ->.
Qed.

End QueryClaim.

(** ** Object stores *)

Section StoreFacts.

Import Store.
Context {A : Type}.
Implicit Types (s : ostore A) (k : key) (r : A).

Lemma get_upsert_eq k r s : get k (upsert k r s) = Some r.
Proof.
  induction s as [|[k' r'] s IH]; simpl.
  - by rewrite decide_True.
  - destruct (decide (k = k')) as [->|Hne]; simpl.
    + by rewrite decide_True.
    + destruct (key_ltb k k'); simpl.
      * by rewrite decide_True.
      * by rewrite decide_False.
Qed.

Lemma get_upsert_ne k k' r s : k ≠ k' → get k' (upsert k r s) = get k' s.
Proof.
  intros Hne. induction s as [|[k1 r1] s IH]; simpl.
  - by rewrite decide_False.
  - destruct (decide (k = k1)) as [->|Hne1]; simpl.
    + by rewrite !decide_False.
    + destruct (key_ltb k k1); simpl.
      * by rewrite (decide_False (P := k' = k)).
      * by rewrite IH.
Qed.

Lemma length_upsert_fresh k r s :
  get k s = None → length (upsert k r s) = S (length s).
Proof.
  induction s as [|[k' r'] s IH]; simpl; [done |].
  destruct (decide (k = k')) as [->|Hne]; [done |].
  intros Hget. destruct (key_ltb k k'); simpl; [done |]. by rewrite IH.
Qed.

Variable keyOf : A → option key.

Lemma add_all_None (rs : list A) :
  foldl (fun acc r => s' ← acc; add keyOf r s') None rs = None.
Proof. induction rs; simpl; auto. Qed.

Lemma add_all_cons r (rs : list A) s :
  MockAPI.add_all keyOf (r :: rs) s
  = add keyOf r s ≫= MockAPI.add_all keyOf rs.
Proof.
  unfold MockAPI.add_all. simpl.
  destruct (add keyOf r s); simpl; [done | apply add_all_None].
Qed.

(** Adding records whose keys are distinct and not yet in the store
    succeeds; every record is then stored at its key, and the store has
    grown by their number. *)
Lemma add_all_fresh (rs : list A) (ks : list key) s :
  Forall2 (fun r k => keyOf r = Some k) rs ks →
  NoDup ks →
  (∀ k, k ∈ ks → get k s = None) →
  ∃ s', MockAPI.add_all keyOf rs s = Some s'
        ∧ length s' = (length s + length rs)%nat
        ∧ (∀ i r k, rs !! i = Some r → ks !! i = Some k →
             get k s' = Some r)
        ∧ (∀ k, k ∉ ks → get k s' = get k s).
Proof.
  intros Hks. revert s. induction Hks as [|r k rs ks Hk _ IH];
    intros s Hnd Hfresh.
  - exists s. split; [done |]. split; [simpl; lia |].
    split; [by intros [] | done].
  - apply NoDup_cons in Hnd as [Hnotin Hnd].
    rewrite add_all_cons. unfold add at 1. rewrite Hk. simpl.
    rewrite Hfresh by set_solver.
    destruct (IH (upsert k r s) Hnd) as (s' & Hs' & Hlen & Hget & Hother).
    { intros k' Hk'. rewrite get_upsert_ne by set_solver.
      apply Hfresh. set_solver. }
    exists s'. split; [done |]. split; [| split].
    + rewrite Hlen, length_upsert_fresh by (apply Hfresh; set_solver).
      simpl. lia.
    + intros [|i] r' k' Hr' Hk'; simpl in *.
      * simplify_eq. by rewrite Hother, get_upsert_eq.
      * eauto.
    + intros k' Hk'. rewrite Hother by set_solver.
      apply get_upsert_ne. set_solver.
Qed.

End StoreFacts.

(** ** Seeding *)

Section Seeding.

Import Store MockAPI.

Lemma numbered_keys_NoDup (prefix : string) (f : nat → nat) (l : list nat) :
  Inj (=) (=) f → NoDup l →
  NoDup ((fun i => KStr (prefix +:+ pretty (f i))) <$> l).
Proof.
  intros Hf Hl. apply NoDup_fmap_2; [| done].
  intros i j [= H]. by apply String.app_inj, pretty_nat_inj, Hf in H.
Qed.

Lemma key_of_seed_job o i : key_at "id" (seed_job o i) = Some (job_key i).
Proof. reflexivity. Qed.

Lemma key_of_seed_candidate o i :
  key_at "id" (seed_candidate o i) = Some (candidate_key i).
Proof. reflexivity. Qed.

Lemma keyed_fmap {A} (keyOf : A → option key) (f : nat → A) (g : nat → key)
  (l : list nat) :
  (∀ i, keyOf (f i) = Some (g i)) →
  Forall2 (fun r k => keyOf r = Some k) (f <$> l) (g <$> l).
Proof.
  intros H. apply Forall2_fmap, Forall_Forall2_diag, Forall_forall.
  intros; apply H.
Qed.

(** What [seedData] stores when every store is empty. *)
Lemma seedData_empty (o : Oracle) :
  ∃ js cs asm,
    seedData o empty_db
    = {| jobsStore := js; candidatesStore := cs; assessmentsStore := asm |}
    ∧ add_all (key_at "id") (seed_job o <$> seq 0 25) [] = Some js
    ∧ length js = 25%nat
    ∧ (∀ i, (i < 25)%nat → get (job_key i) js = Some (seed_job o i))
    ∧ length cs = 1000%nat
    ∧ (∀ i, (i < 1000)%nat →
         get (candidate_key i) cs = Some (seed_candidate o i))
    ∧ length asm = 3%nat
    ∧ (∀ i, (1 ≤ i ≤ 3)%nat →
         get (assessment_job i) asm = Some (seed_assessment i)).
Proof.
  destruct (add_all_fresh (key_at "id") (seed_job o <$> seq 0 25)
              (job_key <$> seq 0 25) [])
    as (js & Hjs & Hjlen & Hjget & _).
  { apply keyed_fmap, key_of_seed_job. }
  { apply (numbered_keys_NoDup "job-" (fun i => (i + 1)%nat)).
    - intros i j; lia.
    - apply NoDup_seq. }
  { done. }
  destruct (add_all_fresh (key_at "id") (seed_candidate o <$> seq 0 1000)
              (candidate_key <$> seq 0 1000) [])
    as (cs & Hcs & Hclen & Hcget & _).
  { apply keyed_fmap, key_of_seed_candidate. }
  { apply (numbered_keys_NoDup "candidate-" (fun i => (i + 1)%nat)).
    - intros i j; lia.
    - apply NoDup_seq. }
  { done. }
  destruct (add_all_fresh assessment_key (seed_assessment <$> seq 1 3)
              (assessment_job <$> seq 1 3) [])
    as (asm & Hasm & Halen & Haget & _).
  { by apply keyed_fmap. }
  { apply (numbered_keys_NoDup "job-" id); [apply _ | apply NoDup_seq]. }
  { done. }
  exists js, cs, asm.
  split.
  { unfold seedData. change (count (jobsStore empty_db)) with 0.
    change (0 <? 0) with false. cbv iota.
    change (jobsStore empty_db) with (@nil (key * record)).
    change (candidatesStore empty_db) with (@nil (key * record)).
    change (assessmentsStore empty_db) with (@nil (key * Assessment)).
    change (map ?f ?l) with (f <$> l).
    by rewrite Hjs, Hcs, Hasm. }
  split; [done |].
  rewrite length_fmap, length_seq in Hjlen.
  rewrite length_fmap, length_seq in Hclen.
  rewrite length_fmap, length_seq in Halen.
  split; [done |]. split.
  { intros i Hi. apply (Hjget i).
    - by rewrite list_lookup_fmap, lookup_seq_lt.
    - by rewrite list_lookup_fmap, lookup_seq_lt. }
  split; [done |]. split.
  { intros i Hi. apply (Hcget i).
    - by rewrite list_lookup_fmap, lookup_seq_lt.
    - by rewrite list_lookup_fmap, lookup_seq_lt. }
  split; [done |].
  intros i Hi. apply (Haget (i - 1)%nat).
  - rewrite list_lookup_fmap, lookup_seq_lt by lia. simpl.
    do 2 f_equal. lia.
  - rewrite list_lookup_fmap, lookup_seq_lt by lia. simpl.
    do 2 f_equal. lia.
Qed.

End Seeding.

(** ** C6: seeding *)

Section SeedingClaim.

Import Store MockAPI.

Lemma seed_questions_shape (j : nat) (q : Question) :
  (seed_question <$> seq 0 12) !! j = Some q →
  Some (q_type q) = questionTypes !! (j `mod` 6)%nat
  ∧ (q_required q = true ↔ (j < 6)%nat)
  ∧ (q_type q = "single-choice" ∨ q_type q = "multi-choice" →
     q_options q = Some ["Beginner"; "Intermediate"; "Advanced"; "Expert"])
  ∧ (q_type q = "numeric" → q_validation q = Range 0 10).
Proof.
  intros Hq.
  do 12 (destruct j as [|j];
         [injection Hq as <-; vm_compute;
          repeat split; (lia || done || (by intros [|]) || idtac) |]).
  done.
Qed.

(** C6: [seedData] does nothing when the jobs store is not empty.  From
    empty stores it stores 25 jobs, the job of index [i] with order
    [i + 1], 1000 candidates, and 3 assessments, for the jobs 1 to 3, each
    with one section of 12 questions whose types cycle through the six
    question types, the first six required, the choice types with the
    scale of four options and the numeric ones bounded by 0 and 10.  A
    second call, one after the other or overlapping the first, finds the
    jobs of the first and leaves the 25 jobs, 1000 candidates and 3
    assessments as they are. *)
Theorem seedData_seeds_once (o o' : Oracle) (db : DB) :
  (0 < count (jobsStore db) → seedData o db = db)
  ∧ count (jobsStore (seedData o empty_db)) = 25
  ∧ (∀ i, (i < 25)%nat →
       ∃ job, get (job_key i) (jobsStore (seedData o empty_db)) = Some job
              ∧ job !! "order" = Some (VNum (Z.of_nat i + 1)))
  ∧ count (candidatesStore (seedData o empty_db)) = 1000
  ∧ count (assessmentsStore (seedData o empty_db)) = 3
  ∧ (∀ i, (1 ≤ i ≤ 3)%nat →
       ∃ a sec,
         get (assessment_job i) (assessmentsStore (seedData o empty_db))
         = Some a
         ∧ a_sections a = [sec]
         ∧ length (s_questions sec) = 12%nat
         ∧ ∀ j q, s_questions sec !! j = Some q →
             Some (q_type q) = questionTypes !! (j `mod` 6)%nat
             ∧ (q_required q = true ↔ (j < 6)%nat)
             ∧ (q_type q = "single-choice" ∨ q_type q = "multi-choice" →
                q_options q
                = Some ["Beginner"; "Intermediate"; "Advanced"; "Expert"])
             ∧ (q_type q = "numeric" → q_validation q = Range 0 10))
  ∧ seedData o' (seedData o empty_db) = seedData o empty_db
  ∧ count (jobsStore (seedData o' (seedData o empty_db))) = 25
  ∧ count (candidatesStore (seedData o' (seedData o empty_db))) = 1000
  ∧ count (assessmentsStore (seedData o' (seedData o empty_db))) = 3
  ∧ (∀ b, let db2 := seedData_overlapping b o o' empty_db in
          count (jobsStore db2) = 25
          ∧ count (candidatesStore db2) = 1000
          ∧ count (assessmentsStore db2) = 3).
Proof.
  assert (Hnoop : ∀ o db, 0 < count (jobsStore db) → seedData o db = db).
  { clear. intros o db H. unfold seedData.
    by destruct (Z.ltb_spec 0 (count (jobsStore db))); [| lia]. }
  split; [apply Hnoop |].
  destruct (seedData_empty o)
    as (js & cs & asm & Hdb & _ & Hjl & Hjg & Hcl & _ & Hal & Hag).
  assert (Hagain : seedData o' (seedData o empty_db) = seedData o empty_db).
  { apply Hnoop. rewrite Hdb. unfold count. simpl. lia. }
  assert (Hover : ∀ b, let db2 := seedData_overlapping b o o' empty_db in
            count (jobsStore db2) = 25
            ∧ count (candidatesStore db2) = 1000
            ∧ count (assessmentsStore db2) = 3).
  { intros [|]; unfold seedData_overlapping.
    - rewrite Hagain, Hdb. unfold count. simpl.
      split; [lia |]. split; lia.
    - destruct (seedData_empty o')
        as (js' & cs' & asm' & Hdb' & _ & Hjl' & _ & Hcl' & _ & Hal' & _).
      rewrite (Hnoop o (seedData o' empty_db))
        by (rewrite Hdb'; unfold count; simpl; lia).
      rewrite Hdb'. unfold count. simpl.
      split; [lia |]. split; lia. }
  rewrite Hagain, Hdb. unfold count.
  cbn [jobsStore candidatesStore assessmentsStore].
  split; [lia |]. split.
  { intros i Hi. exists (seed_job o i). split; [by apply Hjg |]. vm_compute. reflexivity. }
  split; [lia |]. split; [lia |]. split.
  { intros i Hi. exists (seed_assessment i), 
      {| s_id := "section-1"; s_title := "Technical Skills";
         s_questions := map seed_question (seq 0 12) |}.
    split; [by apply Hag |]. split; [reflexivity |]. split; [reflexivity |].
    apply seed_questions_shape. }
  split; [reflexivity |]. split; [lia |]. split; [lia |].
  split; [lia |]. exact Hover.
Qed.

(** A store that holds one job is left alone. *)
Lemma seedData_seeds_once_witness :
  let o := {| random := fun _ => 1 # 2; now := fun _ => 1000 |} in
  let db := set_jobs [(KStr "job-7", {[ "id" := VStr "job-7" ]})] empty_db in
  0 < count (jobsStore db) ∧ seedData o db = db.
Proof.
  intros o db. split; [done |].
  apply (proj1 (seedData_seeds_once o o db)). done.
Defined.

End SeedingClaim.

Section QueryExamples.

Import Store MockAPI QueryEngine.

(** Two jobs and a search for "DEV" among the active ones, one job a
    page. *)
Lemma queries_paginate_in_store_order_witness :
  let net := {| latency := 0; fault := 1 # 2 |} in
  let db :=
    {| jobsStore :=
         [(KStr "job-1", {[ "id" := VStr "job-1";
                            "title" := VStr "Frontend Developer 1";
                            "status" := VStr "active" ]});
          (KStr "job-2", {[ "id" := VStr "job-2";
                            "title" := VStr "Product Manager 1";
                            "status" := VStr "active" ]})];
       candidatesStore :=
         [(KStr "candidate-1", {[ "id" := VStr "candidate-1";
                                  "name" := VStr "Candidate 1";
                                  "email" := VStr "candidate1@email.com";
                                  "stage" := VStr "applied" ]})];
       assessmentsStore := [] |} in
  let params := {| search := Some "DEV"; status := Some "active";
                   stage := None; page := Some 1; pageSize := Some 1 |} in
  paginates 10 (getJobs net db)
    (List.filter (matches_job params) (getAll (jobsStore db))) params.
Proof.
  intros net db params.
  refine (proj1 (proj2 (proj2
            (queries_paginate_in_store_order net db params _ _ _ _ _)))).
  - reflexivity.
  - repeat constructor.
  - repeat constructor.
  - simpl. lia.
  - simpl. lia.
Defined.

(** The first page of the seeded jobs lists the jobs 1, 10, 11, ..., 18:
    the order of their keys, not the order of their creation, which is
    1, 2, ..., 10. *)
Lemma seeded_jobs_not_in_creation_order :
  let o := {| random := fun _ => 0%Q;
              now := fun i => 1000000000000 + Z.of_nat i |} in
  let net := {| latency := 0; fault := 1 # 2 |} in
  let params := {| search := None; status := None; stage := None;
                   page := None; pageSize := None |} in
  let db := seedData o empty_db in
  ∃ res,
    getJobs net db params = Resolved res
    ∧ (fun r => r !! "order") <$> data res
      = (fun n => Some (VNum n)) <$> [1; 10; 11; 12; 13; 14; 15; 16; 17; 18]
    ∧ (fun r => r !! "order")
        <$> window 1 10 (sort_by_creation
                           (List.filter (matches_job params)
                              (getAll (jobsStore db))))
      = (fun n => Some (VNum n)) <$> [1; 2; 3; 4; 5; 6; 7; 8; 9; 10]
    ∧ data res
      ≠ window 1 10 (sort_by_creation
                       (List.filter (matches_job params)
                          (getAll (jobsStore db)))).
Proof.
  intros o net params db.
  destruct (seedData_empty o) as (js & cs & asm & Hdb & Hjs & _).
  set (js0 := default [] (add_all (key_at "id") (seed_job o <$> seq 0 25) [])).
  assert (js = js0) as -> by (unfold js0; by rewrite Hjs).
  clear Hjs. subst db. rewrite Hdb. unfold getJobs.
  cbn [jobsStore]. eexists. split; [reflexivity |].
  split; [vm_compute; reflexivity |].
  split; [vm_compute; reflexivity |].
  intros Heq.
  apply (f_equal (fmap (fun r : record => r !! "order"))) in Heq.
  vm_compute in Heq. discriminate Heq.
Qed.

End QueryExamples.

(** ** Updates *)

Section Updates.

Import Store MockAPI.
Implicit Types (s : ostore record) (r p : record) (k : key).

Lemma spread_named r p f v : p !! f = Some v → spread r p !! f = Some v.
Proof. intros H. unfold spread. by apply lookup_union_Some_l. Qed.

Lemma spread_unnamed r p f : p !! f = None → spread r p !! f = r !! f.
Proof. intros H. unfold spread. by apply lookup_union_r. Qed.

Lemma spread_empty p : spread ∅ p = p.
Proof. unfold spread. apply (right_id_L ∅ (∪)). Qed.

Lemma key_at_spread_named r p v :
  p !! "id" = Some v → key_at "id" (spread r p) = to_key v.
Proof. intros H. unfold key_at. by rewrite (spread_named r p "id" v H). Qed.

Lemma key_at_spread_unnamed r p :
  p !! "id" = None → key_at "id" (spread r p) = key_at "id" r.
Proof. intros H. unfold key_at. by rewrite spread_unnamed. Qed.

Lemma set_jobs_same db : set_jobs (jobsStore db) db = db.
Proof. by destruct db. Qed.

Lemma set_candidates_same db : set_candidates (candidatesStore db) db = db.
Proof. by destruct db. Qed.

(** An injected failure ends the update before the store is touched. *)
Lemma update_network_error net s id p :
  delay net = Rejected NetworkError →
  update net s id p = (Rejected NetworkError, s).
Proof. intros H. unfold update. by rewrite H. Qed.

(** Without an injected failure the update writes the merged record at
    the key the merged record carries. *)
Lemma update_writes net s id k k' p :
  delay net = Resolved tt →
  to_key id = Some k →
  key_at "id" (spread (default ∅ (get k s)) p) = Some k' →
  update net s id p
  = (Resolved (spread (default ∅ (get k s)) p),
     upsert k' (spread (default ∅ (get k s)) p) s).
Proof.
  intros Hnet Hid Hk. unfold update, put. rewrite Hnet, Hid.
  cbv zeta. by rewrite Hk.
Qed.

(** A merged record without a valid id is refused by the store. *)
Lemma update_refused net s id k p :
  delay net = Resolved tt →
  to_key id = Some k →
  key_at "id" (spread (default ∅ (get k s)) p) = None →
  update net s id p = (Rejected DataError, s).
Proof.
  intros Hnet Hid Hk. unfold update, put. rewrite Hnet, Hid.
  cbv zeta. by rewrite Hk.
Qed.

Lemma updateJob_update net db id p :
  updateJob net db id p
  = ((update net (jobsStore db) id p).1,
     set_jobs (update net (jobsStore db) id p).2 db).
Proof. unfold updateJob. by destruct (update _ _ _ _). Qed.

Lemma updateCandidate_update net db id p :
  updateCandidate net db id p
  = ((update net (candidatesStore db) id p).1,
     set_candidates (update net (candidatesStore db) id p).2 db).
Proof. unfold updateCandidate. by destruct (update _ _ _ _). Qed.

End Updates.

(** ** C3, C5, C10: what an update writes *)

Section UpdateClaims.

Import Store MockAPI.

(** C3 (amended): the update operations have no check for an absent
    key.  Without an injected failure, an update of a key that is absent
    merges the patch over nothing: when the patch carries no valid [id]
    the store refuses the record, the operation fails with that error
    and nothing is written; when the patch carries an [id] the patch
    itself is stored under it and returned. *)
Theorem update_of_absent_key (net : Net) (db : DB) (id : value) (k : key)
  (updates : record) :
  delay net = Resolved tt →
  to_key id = Some k →
  (get k (jobsStore db) = None →
     (key_at "id" updates = None →
        updateJob net db id updates = (Rejected DataError, db))
     ∧ (∀ k', key_at "id" updates = Some k' →
          updateJob net db id updates
          = (Resolved updates,
             set_jobs (upsert k' updates (jobsStore db)) db)))
  ∧ (get k (candidatesStore db) = None →
       (key_at "id" updates = None →
          updateCandidate net db id updates = (Rejected DataError, db))
       ∧ (∀ k', key_at "id" updates = Some k' →
            updateCandidate net db id updates
            = (Resolved updates,
               set_candidates (upsert k' updates (candidatesStore db)) db))).
Proof.
  intros Hnet Hid. split; intros Habs; split.
  - intros Hk. rewrite updateJob_update, (update_refused net _ id k).
    + simpl. by rewrite set_jobs_same.
    + done.
    + done.
    + by rewrite Habs, spread_empty.
  - intros k' Hk. rewrite updateJob_update, (update_writes net _ id k k').
    + simpl. by rewrite Habs, spread_empty.
    + done.
    + done.
    + by rewrite Habs, spread_empty.
  - intros Hk. rewrite updateCandidate_update, (update_refused net _ id k).
    + simpl. by rewrite set_candidates_same.
    + done.
    + done.
    + by rewrite Habs, spread_empty.
  - intros k' Hk.
    rewrite updateCandidate_update, (update_writes net _ id k k').
    + simpl. by rewrite Habs, spread_empty.
    + done.
    + done.
    + by rewrite Habs, spread_empty.
Qed.

(** Archiving a job that does not exist: the store refuses the record. *)
Lemma update_of_absent_key_witness :
  let net := {| latency := 0; fault := 1 # 2 |} in
  updateJob net empty_db (VStr "job-9") {[ "status" := VStr "archived" ]}
  = (Rejected DataError, empty_db).
Proof.
  intros net.
  refine (proj1 (proj1 (update_of_absent_key net empty_db (VStr "job-9")
                          (KStr "job-9") {[ "status" := VStr "archived" ]}
                          _ _) _) _); reflexivity.
Defined.

(** An update of an absent job whose patch carries an id returns a record
    and writes it. *)
Lemma update_of_absent_key_writes :
  let net := {| latency := 0; fault := 1 # 2 |} in
  let patch : record :=
    {[ "id" := VStr "job-9"; "status" := VStr "archived" ]} in
  let res := updateJob net empty_db (VStr "job-9") patch in
  get (KStr "job-9") (jobsStore empty_db) = None
  ∧ res.1 = Resolved patch
  ∧ jobsStore res.2 = [(KStr "job-9", patch)].
Proof. repeat split; by_evaluation. Qed.

(** C5 (amended): without an injected failure, for a record [r] stored
    at key [k] and a patch that does not name [id], the update
    operations return the merge of the patch over [r] and store it at
    [k]: every field the patch names has the value of the patch, every
    other field the value it had in [r], and the record at every other
    key is the one that was there. *)
Theorem update_merges_patch (net : Net) (db : DB) (id : value) (k : key)
  (r updates : record) :
  delay net = Resolved tt →
  to_key id = Some k →
  key_at "id" r = Some k →
  updates !! "id" = None →
  let merged := spread r updates in
  (∀ f v, updates !! f = Some v → merged !! f = Some v)
  ∧ (∀ f, updates !! f = None → merged !! f = r !! f)
  ∧ (get k (jobsStore db) = Some r →
       ∃ db', updateJob net db id updates = (Resolved merged, db')
              ∧ get k (jobsStore db') = Some merged
              ∧ (∀ k', k' ≠ k →
                   get k' (jobsStore db') = get k' (jobsStore db))
              ∧ candidatesStore db' = candidatesStore db
              ∧ assessmentsStore db' = assessmentsStore db)
  ∧ (get k (candidatesStore db) = Some r →
       ∃ db', updateCandidate net db id updates = (Resolved merged, db')
              ∧ get k (candidatesStore db') = Some merged
              ∧ (∀ k', k' ≠ k →
                   get k' (candidatesStore db') = get k' (candidatesStore db))
              ∧ jobsStore db' = jobsStore db
              ∧ assessmentsStore db' = assessmentsStore db).
Proof.
  intros Hnet Hid Hr Hp merged.
  split; [intros f v; apply spread_named |].
  split; [intros f; apply spread_unnamed |].
  assert (Hk : key_at "id" merged = Some k)
    by (unfold merged; by rewrite key_at_spread_unnamed).
  split; intros Hget.
  - eexists. rewrite updateJob_update, (update_writes net _ id k k);
      [| done | done | by rewrite Hget].
    rewrite Hget. simpl. split; [reflexivity |].
    split; [apply get_upsert_eq |].
    split; [| done]. intros k' Hne. by apply get_upsert_ne.
  - eexists.
    rewrite updateCandidate_update, (update_writes net _ id k k);
      [| done | done | by rewrite Hget].
    rewrite Hget. simpl. split; [reflexivity |].
    split; [apply get_upsert_eq |].
    split; [| done]. intros k' Hne. by apply get_upsert_ne.
Qed.

(** Archiving an active job changes its status and keeps its title. *)
Lemma update_merges_patch_witness :
  let net := {| latency := 0; fault := 1 # 2 |} in
  let job : record :=
    {[ "id" := VStr "job-1"; "title" := VStr "Frontend Developer 1";
       "status" := VStr "active" ]} in
  let patch : record := {[ "status" := VStr "archived" ]} in
  let db := set_jobs [(KStr "job-1", job)] empty_db in
  spread job patch !! "status" = Some (VStr "archived")
  ∧ spread job patch !! "title" = job !! "title"
  ∧ ∃ db', updateJob net db (VStr "job-1") patch
           = (Resolved (spread job patch), db')
           ∧ get (KStr "job-1") (jobsStore db') = Some (spread job patch).
Proof.
  intros net job patch db.
  destruct (update_merges_patch net db (VStr "job-1") (KStr "job-1")
              job patch eq_refl eq_refl eq_refl eq_refl)
    as (Hnamed & Hkept & Hjob & _).
  split; [apply Hnamed; reflexivity |].
  split; [apply Hkept; reflexivity |].
  destruct (Hjob eq_refl) as (db' & Hres & Hget & _).
  exists db'. split; assumption.
Defined.

(** A patch that names the id of another job replaces that other job and
    leaves the job that was to be updated as it was. *)
Lemma update_overwrites_other_record :
  let net := {| latency := 0; fault := 1 # 2 |} in
  let a : record :=
    {[ "id" := VStr "job-1"; "title" := VStr "Frontend Developer 1";
       "status" := VStr "active" ]} in
  let b : record :=
    {[ "id" := VStr "job-2"; "title" := VStr "Backend Engineer 1";
       "status" := VStr "active" ]} in
  let patch : record :=
    {[ "id" := VStr "job-2"; "status" := VStr "archived" ]} in
  let db := set_jobs [(KStr "job-1", a); (KStr "job-2", b)] empty_db in
  let res := updateJob net db (VStr "job-1") patch in
  res.1 = Resolved (spread a patch)
  ∧ get (KStr "job-2") (jobsStore db) = Some b
  ∧ get (KStr "job-2") (jobsStore res.2) = Some (spread a patch)
  ∧ spread a patch ≠ b
  ∧ get (KStr "job-1") (jobsStore res.2) = Some a.
Proof. repeat split; by_evaluation. Qed.

(** C10 (amended): without an injected failure, for a record [r] stored
    at key [k] and a patch whose [id] is another valid key [k'], the
    update operations return the merge of the patch over [r], in which
    every field the patch names has the value of the patch and every
    other field the value it had in [r], and store it under [k']; the
    record at [k] stays [r] and so does the record at every key other
    than [k']: the store then holds both, one record more than before
    when [k'] was free. *)
Theorem update_with_other_id_duplicates (net : Net) (db : DB)
  (id v : value) (k k' : key) (r updates : record) :
  delay net = Resolved tt →
  to_key id = Some k →
  updates !! "id" = Some v →
  to_key v = Some k' →
  k' ≠ k →
  let merged := spread r updates in
  (∀ f w, updates !! f = Some w → merged !! f = Some w)
  ∧ (∀ f, updates !! f = None → merged !! f = r !! f)
  ∧ merged !! "id" = Some v
  ∧ (get k (jobsStore db) = Some r →
       ∃ db', updateJob net db id updates = (Resolved merged, db')
              ∧ get k' (jobsStore db') = Some merged
              ∧ get k (jobsStore db') = Some r
              ∧ (∀ k'', k'' ≠ k' →
                   get k'' (jobsStore db') = get k'' (jobsStore db))
              ∧ (get k' (jobsStore db) = None →
                 count (jobsStore db') = count (jobsStore db) + 1)
              ∧ candidatesStore db' = candidatesStore db
              ∧ assessmentsStore db' = assessmentsStore db)
  ∧ (get k (candidatesStore db) = Some r →
       ∃ db', updateCandidate net db id updates = (Resolved merged, db')
              ∧ get k' (candidatesStore db') = Some merged
              ∧ get k (candidatesStore db') = Some r
              ∧ (∀ k'', k'' ≠ k' →
                   get k'' (candidatesStore db')
                   = get k'' (candidatesStore db))
              ∧ (get k' (candidatesStore db) = None →
                 count (candidatesStore db')
                 = count (candidatesStore db) + 1)
              ∧ jobsStore db' = jobsStore db
              ∧ assessmentsStore db' = assessmentsStore db).
Proof.
  intros Hnet Hid Hv Hk' Hne merged.
  split; [intros f w; apply spread_named |].
  split; [intros f; apply spread_unnamed |].
  split; [by apply spread_named |].
  assert (Hk : key_at "id" merged = Some k')
    by (unfold merged; by rewrite (key_at_spread_named r updates v)).
  split; intros Hget.
  - eexists. rewrite updateJob_update, (update_writes net _ id k k');
      [| done | done | by rewrite Hget].
    rewrite Hget. simpl. split; [reflexivity |].
    split; [apply get_upsert_eq |].
    split; [etransitivity; [by apply get_upsert_ne | exact Hget] |].
    split; [intros k'' Hne'; by apply get_upsert_ne |].
    split; [| done].
    intros Hfree. unfold count.
    etransitivity; [apply f_equal, length_upsert_fresh, Hfree | lia].
  - eexists.
    rewrite updateCandidate_update, (update_writes net _ id k k');
      [| done | done | by rewrite Hget].
    rewrite Hget. simpl. split; [reflexivity |].
    split; [apply get_upsert_eq |].
    split; [etransitivity; [by apply get_upsert_ne | exact Hget] |].
    split; [intros k'' Hne'; by apply get_upsert_ne |].
    split; [| done].
    intros Hfree. unfold count.
    etransitivity; [apply f_equal, length_upsert_fresh, Hfree | lia].
Qed.

(** A patch that renames job 1 to job 3 leaves two jobs where there was
    one: job 3 has the title of job 1 and the id of the patch. *)
Lemma update_with_other_id_duplicates_witness :
  let net := {| latency := 0; fault := 1 # 2 |} in
  let job : record :=
    {[ "id" := VStr "job-1"; "title" := VStr "Frontend Developer 1" ]} in
  let patch : record := {[ "id" := VStr "job-3" ]} in
  let db := set_jobs [(KStr "job-1", job)] empty_db in
  spread job patch !! "id" = Some (VStr "job-3")
  ∧ spread job patch !! "title" = job !! "title"
  ∧ ∃ db', updateJob net db (VStr "job-1") patch
           = (Resolved (spread job patch), db')
           ∧ get (KStr "job-3") (jobsStore db') = Some (spread job patch)
           ∧ get (KStr "job-1") (jobsStore db') = Some job
           ∧ count (jobsStore db') = 2.
Proof.
  intros net job patch db.
  destruct (update_with_other_id_duplicates net db (VStr "job-1")
              (VStr "job-3") (KStr "job-1") (KStr "job-3") job patch
              eq_refl eq_refl eq_refl eq_refl ltac:(discriminate))
    as (_ & Hkept & Hnew_id & Hjob & _).
  split; [exact Hnew_id |].
  split; [apply Hkept; reflexivity |].
  destruct (Hjob eq_refl) as (db' & Hres & Hnew & Hold & _ & Hcount & _).
  exists db'. split; [assumption |]. split; [assumption |].
  split; [assumption |]. rewrite Hcount; reflexivity.
Defined.

(** With an injected failure the same update is rejected: no record is
    returned, nothing is stored under the id of the patch, and the store
    holds the one job it held. *)
Lemma update_with_other_id_rejected_on_failure :
  let net := {| latency := 0; fault := 1 # 100 |} in
  let job : record :=
    {[ "id" := VStr "job-1"; "title" := VStr "Frontend Developer 1" ]} in
  let patch : record := {[ "id" := VStr "job-3" ]} in
  let db := set_jobs [(KStr "job-1", job)] empty_db in
  let res := updateJob net db (VStr "job-1") patch in
  get (KStr "job-1") (jobsStore db) = Some job
  ∧ res.1 = Rejected NetworkError
  ∧ get (KStr "job-3") (jobsStore res.2) = None
  ∧ count (jobsStore res.2) = 1.
Proof. repeat split; by_evaluation. Qed.

End UpdateClaims.

(** ** C4: failure injection *)

Section FailureInjection.

Import Store MockAPI.

(** C4, the code at the failing inputs: [delay], which every operation
    awaits first, throws whenever its sample is below 0.05, and the read
    operations are not exempt.  With such a sample [getJobs],
    [getCandidates] and [getAssessment] fail with the network error, as
    the mutations do. *)
Theorem reads_fail_like_writes (net : Net) (db : DB) (params : Params)
  (id : value) (patch : record) :
  Js.Qltb (fault net) (5 # 100) = true →
  getJobs net db params = Rejected NetworkError
  ∧ getCandidates net db params = Rejected NetworkError
  ∧ getAssessment net db id = Rejected NetworkError
  ∧ updateJob net db id patch = (Rejected NetworkError, db)
  ∧ updateCandidate net db id patch = (Rejected NetworkError, db).
Proof.
  intros H.
  assert (Hd : delay net = Rejected NetworkError)
    by (unfold delay; by rewrite H).
  unfold getJobs, getCandidates, getAssessment. rewrite Hd.
  split; [reflexivity |]. split; [reflexivity |]. split; [reflexivity |].
  rewrite updateJob_update, updateCandidate_update.
  rewrite !update_network_error by done. simpl.
  by rewrite set_jobs_same, set_candidates_same.
Qed.

(** A query for the jobs whose sample is 0.01. *)
Lemma reads_fail_like_writes_witness :
  getJobs {| latency := 0; fault := 1 # 100 |} empty_db
    {| search := None; status := None; stage := None;
       page := None; pageSize := None |}
  = Rejected NetworkError.
Proof.
  refine (proj1 (reads_fail_like_writes {| latency := 0; fault := 1 # 100 |}
                   empty_db _ VUndef ∅ _)).
  reflexivity.
Defined.

End FailureInjection.

(** ** C9: creating a job *)

Section Creation.

Import Store MockAPI CreateJobModal.




End Creation.

(** ** C2, C8: reordering jobs by drag and drop *)

Section Reordering.

Import Store MockAPI JobsView Scenario.

Lemma loaded_jobs : jobs loaded = [job_a; job_b; job_c].
Proof. by_evaluation. Qed.

(** When the reload of the [catch] branch succeeds and the list shown
    was the result of the query, a failed reorder leaves the list as it
    was. *)
Lemma rollback_restores_synced_view (sample : Q) (net : Net) (db : DB)
  (st st' : State) (targetJob : record) (res : PageResult) :
  getJobs net db (filters st) = Resolved res →
  jobs st = data res →
  reorder_fails sample = true →
  handleDrop sample net db st targetJob = Some st' →
  jobs st' = jobs st.
Proof.
  intros Hget Hsync Hfail. unfold handleDrop, begin.
  destruct (draggedJob st) as [dragged|]; simpl; [| by intros [= <-]].
  destruct (strict_eq _ _); simpl; [by intros [= <-] |].
  destruct (reorder _ _ _) as [l|]; simpl; [| done].
  rewrite Hfail. intros [= <-].
  unfold rollback, loadJobs. simpl. rewrite Hget. simpl. by rewrite Hsync.
Qed.

(** C2, the code at the failing input: the list [A, B, C] is shown, B is
    dropped on A, the simulated call fails and the reload that is to
    undo the move is hit by the injected network failure: the view
    raises its alert, logs the failed load, and keeps showing
    [B, A, C]. *)
Theorem rollback_lost_when_reload_fails :
  let st := handleDrop (1 # 20) faulty three_jobs
              (handleDragStart job_b loaded) job_a in
  jobs loaded = [job_a; job_b; job_c]
  ∧ jobs <$> st = Some [job_b; job_a; job_c]
  ∧ events <$> st = Some [Alert "Reorder failed, rolling back...";
                          ConsoleError "Failed to load jobs:"]
  ∧ draggedJob <$> st = Some None.
Proof. repeat split; by_evaluation. Qed.

(** C8, the code at the failing input: B is dropped on A and the
    simulated call succeeds: the view shows [B, A, C], [handleDrop]
    has written nothing, and the next query returns [A, B, C] again. *)
Theorem reorder_not_persisted :
  let st := handleDrop (1 # 2) calm three_jobs
              (handleDragStart job_b loaded) job_a in
  jobs loaded = [job_a; job_b; job_c]
  ∧ jobs <$> st = Some [job_b; job_a; job_c]
  ∧ events <$> st = Some []
  ∧ jobs ∘ loadJobs calm three_jobs <$> st = Some [job_a; job_b; job_c].
Proof. repeat split; by_evaluation. Qed.

End Reordering.

(** ** C7: settles of overlapping mutations *)

Section Overlap.

Import Store MockAPI KanbanBoard Scenario.

(** A drop that is not ignored and not hit by a failure stores the
    candidate with its new stage. *)
Lemma settle_stores_stage (d : Drop) (db : DB) (evs : list event)
  (id : string) (c : record) :
  field (draggedCandidate d) "id" = VStr id →
  strict_eq (field (draggedCandidate d) "stage") (VStr (target d)) = false →
  delay (net d) = Resolved tt →
  get (KStr id) (candidatesStore db) = Some c →
  key_at "id" c = Some (KStr id) →
  ∃ db',
    settle d (db, evs) = (db', evs)
    ∧ get (KStr id) (candidatesStore db')
      = Some (spread c {[ "stage" := VStr (target d) ]}).
Proof.
  intros Hid Hstage Hnet Hget Hkey. unfold settle. rewrite Hstage, Hid.
  rewrite updateCandidate_update.
  rewrite (update_writes _ _ _ (KStr id) (KStr id)); [| done | done |].
  - rewrite Hget. simpl. eexists. split; [reflexivity |]. simpl.
    apply get_upsert_eq.
  - rewrite Hget. simpl. by rewrite key_at_spread_unnamed.
Qed.

(** C7 (amended): no sequence number is allocated and no settle is
    discarded.  Each update is applied to the store when its own delay
    ends, so of two drops of one candidate, both free of failures, the
    one whose delay ends last decides the stage that is stored: when the
    first drop completes after the second, the store ends with the stage
    of the first. *)
Theorem later_completion_decides_stage (db : DB) (d1 d2 : Drop)
  (id : string) (c : record) :
  field (draggedCandidate d1) "id" = VStr id →
  field (draggedCandidate d2) "id" = VStr id →
  get (KStr id) (candidatesStore db) = Some c →
  key_at "id" c = Some (KStr id) →
  strict_eq (field (draggedCandidate d1) "stage") (VStr (target d1))
  = false →
  strict_eq (field (draggedCandidate d2) "stage") (VStr (target d2))
  = false →
  delay (net d1) = Resolved tt →
  delay (net d2) = Resolved tt →
  (issued d1 < issued d2)%Q →
  Js.Qltb (completes d2) (completes d1) = true →
  schedule [d1; d2] = [d2; d1]
  ∧ stored_stage (run [d1; d2] db).1 id = Some (VStr (target d1))
  ∧ (run [d1; d2] db).2 = [].
Proof.
  intros Hid1 Hid2 Hget Hkey Hs1 Hs2 Hn1 Hn2 _ Hlate.
  assert (Hsched : schedule [d1; d2] = [d2; d1])
    by (unfold schedule; simpl; by rewrite Hlate).
  split; [exact Hsched |].
  unfold run. rewrite Hsched. cbn [foldl].
  destruct (settle_stores_stage d2 db [] id c) as (db2 & -> & Hget2);
    [done .. |].
  destruct (settle_stores_stage d1 db2 [] id
              (spread c {[ "stage" := VStr (target d2) ]}))
    as (db1 & -> & Hget1); [done .. | |].
  { by rewrite key_at_spread_unnamed. }
  simpl. split; [| reflexivity].
  unfold stored_stage. rewrite Hget1. simpl.
  apply spread_named, lookup_singleton_eq.
Qed.

(** Candidate 1 dragged to "screen" and then to "tech". *)
Lemma later_completion_decides_stage_witness :
  stored_stage (run [to_screen; to_tech] one_candidate).1 "candidate-1"
  = Some (VStr "screen").
Proof.
  refine (proj1 (proj2
            (later_completion_decides_stage one_candidate to_screen to_tech
               "candidate-1" candidate_1 _ _ _ _ _ _ _ _ _ _)));
    reflexivity.
Defined.

(** The second drop is the later one and it settles first, with stage
    "tech"; the settle of the first drop then overrides it: the store
    ends with "screen". *)
Lemma stale_settle_overrides :
  (issued to_screen < issued to_tech)%Q
  ∧ (completes to_tech < completes to_screen)%Q
  ∧ stored_stage (settle to_tech (one_candidate, [])).1 "candidate-1"
    = Some (VStr "tech")
  ∧ stored_stage (run [to_screen; to_tech] one_candidate).1 "candidate-1"
    = Some (VStr "screen")
  ∧ (run [to_screen; to_tech] one_candidate).2 = [].
Proof.
  split; [reflexivity |]. split; [reflexivity |].
  repeat split; by_evaluation.
Qed.

End Overlap.

Section OverlapJobs.

Import Store MockAPI JobsView Scenario.

(** In the jobs view too nothing fences a late settle.  B is dropped on
    A, then C on B while the first simulated call is pending; the first
    call fails, the second succeeds, and the reload started by the first
    rollback lands last: the list goes back to [A, B, C] and the second,
    successful reorder is lost. *)
Lemma stale_rollback_overrides_later_reorder :
  let first := begin (handleDragStart job_b loaded) job_a in
  let second :=
    '(st, _) ← first; begin (handleDragStart job_c st) job_b in
  let final := '(st, _) ← second; Some (rollback calm three_jobs st) in
  jobs ∘ fst <$> first = Some [job_b; job_a; job_c]
  ∧ jobs ∘ fst <$> second = Some [job_c; job_b; job_a]
  ∧ jobs <$> final = Some [job_a; job_b; job_c].
Proof. repeat split; by_evaluation. Qed.

End OverlapJobs.

(** * Further properties of the code *)

(** ** [JobsView.handleDrop]: the list shown after a drop *)

Section ReorderFacts.

Import JobsView.

Lemma findIndex_range {A} (f : A → bool) (l : list A) :
  Js.findIndex f l = -1 ∨ 0 ≤ Js.findIndex f l < Z.of_nat (length l).
Proof.
  induction l as [|x l IH]; simpl; [by left |].
  destruct (f x); [right; lia |].
  destruct IH as [-> | IH]; [by left |].
  destruct (Z.ltb_spec (Js.findIndex f l) 0); [lia | right; lia].
Qed.

Lemma findIndex_found {A} (f : A → bool) (l : list A) :
  0 ≤ Js.findIndex f l →
  ∃ x, l !! Z.to_nat (Js.findIndex f l) = Some x ∧ f x = true.
Proof.
  induction l as [|x l IH]; simpl; [lia |].
  destruct (f x) eqn:Hfx; [intros _; by exists x |].
  destruct (Z.ltb_spec (Js.findIndex f l) 0) as [|Hge]; [lia |].
  intros _. destruct (IH Hge) as (y & Hy & Hfy). exists y. split; [| done].
  replace (Z.to_nat (Js.findIndex f l + 1))
    with (S (Z.to_nat (Js.findIndex f l))) by lia.
  done.
Qed.

Lemma findIndex_absent {A} (f : A → bool) (l : list A) :
  Forall (fun x => f x = false) l → Js.findIndex f l = -1.
Proof.
  induction 1 as [|x l Hx _ IH]; simpl; [done |]. by rewrite Hx, IH.
Qed.

(** The list [reorder] builds when the removal hits the element [x] at
    position [k]: [x] goes to the position the insertion resolves. *)
Lemma reorder_at (jobs : list record) (dragged target x : record) (k : nat) :
  k = Z.to_nat (Js.relative_index (Z.of_nat (length jobs))
                  (Js.findIndex
                     (fun j => strict_eq (field j "id") (field dragged "id"))
                     jobs)) →
  jobs !! k = Some x →
  let rest := delete k jobs in
  let t := Z.to_nat
             (Js.relative_index (Z.of_nat (length rest))
                (Js.findIndex
                   (fun j => strict_eq (field j "id") (field target "id"))
                   jobs)) in
  reorder jobs dragged target = Some (take t rest ++ x :: drop t rest).
Proof.
  intros Hk Hx rest t. unfold reorder, Js.splice_remove1. rewrite <- Hk.
  rewrite (drop_S jobs x k Hx). simpl.
  rewrite <- delete_take_drop. reflexivity.
Qed.

Lemma insert_middle_Permutation {A} (l : list A) (x : A) (t : nat) :
  take t l ++ x :: drop t l ≡ₚ x :: l.
Proof. rewrite <- Permutation_middle. by rewrite take_drop. Qed.

Lemma delete_Permutation {A} (l : list A) (x : A) (k : nat) :
  l !! k = Some x → x :: delete k l ≡ₚ l.
Proof.
  intros H. rewrite delete_take_drop.
  rewrite <- (take_drop_middle l k x H) at 3.
  by rewrite <- Permutation_middle.
Qed.

Lemma reorder_Permutation (jobs : list record) (dragged target : record) :
  jobs ≠ [] →
  ∃ reordered, reorder jobs dragged target = Some reordered
               ∧ reordered ≡ₚ jobs.
Proof.
  intros Hne.
  set (i := Js.findIndex
              (fun j => strict_eq (field j "id") (field dragged "id")) jobs).
  set (k := Z.to_nat (Js.relative_index (Z.of_nat (length jobs)) i)).
  assert (Hlen : (0 < length jobs)%nat) by (destruct jobs; simpl; [done | lia]).
  assert (Hk : (k < length jobs)%nat).
  { subst k. unfold Js.relative_index.
    destruct (findIndex_range
                (fun j => strict_eq (field j "id") (field dragged "id")) jobs)
      as [Hi | Hi]; fold i in Hi.
    - rewrite Hi. simpl. lia.
    - destruct (Z.ltb_spec i 0); lia. }
  destruct (lookup_lt_is_Some_2 jobs k Hk) as [x Hx].
  eexists. split; [by apply (reorder_at jobs dragged target x k) |].
  rewrite insert_middle_Permutation. by apply delete_Permutation.
Qed.

(** X1: whatever job is dragged onto whatever target, the list a drop
    shows holds the jobs that were shown, each as often as before; only
    their order changes.  With no job shown there is no such list. *)
Theorem reorder_keeps_the_jobs (jobs : list record) (dragged target : record) :
  (jobs = [] → reorder jobs dragged target = None)
  ∧ (jobs ≠ [] →
     ∃ reordered, reorder jobs dragged target = Some reordered
                  ∧ reordered ≡ₚ jobs
                  ∧ length reordered = length jobs).
Proof.
  split; [by intros -> |]. intros Hne.
  destruct (reorder_Permutation jobs dragged target Hne) as (l & Hl & Hperm).
  exists l. split; [done |]. split; [done |]. by rewrite Hperm.
Qed.

Lemma reorder_keeps_the_jobs_witness :
  ∃ reordered,
    reorder [Scenario.job_a; Scenario.job_b; Scenario.job_c]
      Scenario.job_b Scenario.job_a = Some reordered
    ∧ reordered ≡ₚ [Scenario.job_a; Scenario.job_b; Scenario.job_c].
Proof.
  destruct (proj2 (reorder_keeps_the_jobs
                     [Scenario.job_a; Scenario.job_b; Scenario.job_c]
                     Scenario.job_b Scenario.job_a) ltac:(discriminate))
    as (l & Hl & Hperm & _).
  exists l. split; assumption.
Defined.

(** The shape of the list after the insertion at a position [t] within
    the rest. *)
Lemma inserted_at {A} (rest : list A) (x : A) (t : nat) :
  (t ≤ length rest)%nat →
  (take t rest ++ x :: drop t rest) !! t = Some x
  ∧ delete t (take t rest ++ x :: drop t rest) = rest.
Proof.
  intros Ht.
  assert (Hlen : t = length (take t rest)) by (rewrite length_take; lia).
  split.
  - by apply list_lookup_middle.
  - rewrite Hlen at 1. rewrite delete_middle. apply take_drop.
Qed.

(** X2: when the dragged job and the target are both in the list shown,
    the drop puts the dragged job at the index the target had, and the
    other jobs keep their order: taking the dragged job out of the old and
    of the new list leaves the same list. *)
Theorem drop_lands_on_target_index (jobs : list record)
  (dragged target : record) :
  let i := Js.findIndex
             (fun j => strict_eq (field j "id") (field dragged "id")) jobs in
  let j := Js.findIndex
             (fun j => strict_eq (field j "id") (field target "id")) jobs in
  0 ≤ i → 0 ≤ j →
  ∃ reordered x,
    reorder jobs dragged target = Some reordered
    ∧ jobs !! Z.to_nat i = Some x
    ∧ field x "id" = field dragged "id"
    ∧ reordered !! Z.to_nat j = Some x
    ∧ delete (Z.to_nat j) reordered = delete (Z.to_nat i) jobs.
Proof.
  intros i j Hi Hj.
  destruct (findIndex_found _ jobs Hi) as (x & Hx & Hid). fold i in Hx.
  apply bool_decide_eq_true in Hid.
  destruct (findIndex_range
              (fun j => strict_eq (field j "id") (field dragged "id")) jobs)
    as [Hri | Hri]; fold i in Hri; [lia |].
  destruct (findIndex_range
              (fun j => strict_eq (field j "id") (field target "id")) jobs)
    as [Hrj | Hrj]; fold j in Hrj; [lia |].
  assert (Hk : Z.to_nat i
               = Z.to_nat (Js.relative_index (Z.of_nat (length jobs)) i)).
  { unfold Js.relative_index. destruct (Z.ltb_spec i 0); lia. }
  pose proof (reorder_at jobs dragged target x (Z.to_nat i) Hk Hx) as Hre.
  cbv zeta in Hre. fold j in Hre.
  assert (Hdel : length (delete (Z.to_nat i) jobs) = (length jobs - 1)%nat).
  { rewrite length_delete; [lia | by eexists]. }
  assert (Ht : Z.to_nat
                 (Js.relative_index
                    (Z.of_nat (length (delete (Z.to_nat i) jobs))) j)
               = Z.to_nat j).
  { unfold Js.relative_index. destruct (Z.ltb_spec j 0); lia. }
  rewrite Ht in Hre.
  destruct (inserted_at (delete (Z.to_nat i) jobs) x (Z.to_nat j)) as [Hat Hrest];
    [lia |].
  eexists _, x. split; [exact Hre |]. by repeat split.
Qed.

(** C dragged onto A in [A, B, C]: C comes first. *)
Lemma drop_lands_on_target_index_witness :
  ∃ reordered,
    reorder [Scenario.job_a; Scenario.job_b; Scenario.job_c]
      Scenario.job_c Scenario.job_a = Some reordered
    ∧ reordered !! 0%nat = Some Scenario.job_c
    ∧ delete 0%nat reordered = [Scenario.job_a; Scenario.job_b].
Proof.
  destruct (drop_lands_on_target_index
              [Scenario.job_a; Scenario.job_b; Scenario.job_c]
              Scenario.job_c Scenario.job_a) as (l & x & Hl & Hx & _ & Hat & Hdel).
  - by_evaluation.
  - by_evaluation.
  - exists l. split; [exact Hl |].
    assert (x = Scenario.job_c) as -> by (injection Hx as <-; reflexivity).
    split; [exact Hat | exact Hdel].
Defined.

(** X3: when the job that was dragged is no longer in the list shown,
    [findIndex] answers -1 and the removal takes the last job: the drop
    moves the last job of the list to the index of the target, though it
    was not the one dragged. *)
Theorem stale_drag_moves_last_job (front : list record)
  (last dragged target : record) :
  let jobs := front ++ [last] in
  let j := Js.findIndex
             (fun j => strict_eq (field j "id") (field target "id")) jobs in
  Forall (fun job => field job "id" ≠ field dragged "id") jobs →
  0 ≤ j →
  ∃ reordered,
    reorder jobs dragged target = Some reordered
    ∧ reordered !! Z.to_nat j = Some last
    ∧ delete (Z.to_nat j) reordered = front.
Proof.
  intros jobs j Habsent Hj.
  assert (Hi : Js.findIndex
                 (fun j => strict_eq (field j "id") (field dragged "id")) jobs
               = -1).
  { apply findIndex_absent. eapply Forall_impl; [exact Habsent |].
    intros job Hne. by apply bool_decide_eq_false. }
  destruct (findIndex_range
              (fun j => strict_eq (field j "id") (field target "id")) jobs)
    as [Hrj | Hrj]; fold j in Hrj; [lia |].
  assert (Hlen : length jobs = S (length front))
    by (unfold jobs; rewrite length_app; simpl; lia).
  assert (Hk : length front
               = Z.to_nat (Js.relative_index (Z.of_nat (length jobs))
                   (Js.findIndex
                      (fun j => strict_eq (field j "id") (field dragged "id"))
                      jobs))).
  { rewrite Hi. unfold Js.relative_index. simpl. lia. }
  assert (Hx : jobs !! length front = Some last)
    by (unfold jobs; by apply list_lookup_middle).
  pose proof (reorder_at jobs dragged target last (length front) Hk Hx) as Hre.
  cbv zeta in Hre. fold j in Hre.
  assert (Hdel : delete (length front) jobs = front).
  { unfold jobs. rewrite delete_middle. apply app_nil_r. }
  rewrite Hdel in Hre.
  assert (Ht : Z.to_nat (Js.relative_index (Z.of_nat (length front)) j)
               = Z.to_nat j).
  { unfold Js.relative_index. destruct (Z.ltb_spec j 0); lia. }
  rewrite Ht in Hre.
  destruct (inserted_at front last (Z.to_nat j)) as [Hat Hrest]; [lia |].
  eexists. split; [exact Hre |]. by split.
Qed.

(** A job that is not shown is dragged onto A in [A, B, C]: C moves. *)
Lemma stale_drag_moves_last_job_witness :
  let gone : record := {[ "id" := VStr "job-9" ]} in
  ∃ reordered,
    reorder [Scenario.job_a; Scenario.job_b; Scenario.job_c]
      gone Scenario.job_a = Some reordered
    ∧ reordered !! 0%nat = Some Scenario.job_c
    ∧ delete 0%nat reordered = [Scenario.job_a; Scenario.job_b].
Proof.
  intros gone.
  destruct (stale_drag_moves_last_job [Scenario.job_a; Scenario.job_b]
              Scenario.job_c gone Scenario.job_a) as (l & Hl & Hat & Hdel).
  - repeat constructor; by_evaluation.
  - by_evaluation.
  - exists l. by repeat split.
Defined.

End ReorderFacts.

(** ** [CandidateDetail]: looking a candidate up by id *)

Section CandidateLookup.

Import Store MockAPI QueryEngine CandidateDetail.

Lemma find_in_take {A} (f : A → bool) (l : list A) (n : nat) (x : A) :
  List.find f (take n l) = Some x → In x l ∧ f x = true.
Proof.
  intros H. apply find_some in H as [Hin Hf]. split; [| done].
  apply list_elem_of_In. apply list_elem_of_In in Hin.
  apply elem_of_take in Hin as (i & Hi & _).
  apply list_elem_of_lookup. by exists i.
Qed.

Lemma loadCandidate_found (net : Net) (db : DB) (candidateId : string)
  (st : State) (c : record) :
  delay net = Resolved tt →
  Forall (fun r => is_string "name" r = true ∧ is_string "email" r = true)
    (getAll (candidatesStore db)) →
  candidateId ≠ "" →
  candidate (loadCandidate net db candidateId st) = Some c →
  In c (getAll (candidatesStore db))
  ∧ field c "id" = VStr candidateId
  ∧ (text_matches "name" candidateId c = true
     ∨ text_matches "email" candidateId c = true).
Proof.
  intros Hnet Hty Hne. unfold loadCandidate.
  rewrite (getCandidates_resolved net db _ Hnet Hty).
  cbn [candidate data page_result].
  change (or_default (page _) 1) with 1.
  change (or_default (pageSize _) 50) with 50.
  rewrite (slice_window _ ((1 - 1) * 50) 50) by lia.
  intros [Hin Hid]%find_in_take.
  apply bool_decide_eq_true in Hid.
  apply filter_In in Hin as [Hin Hm].
  split; [done |]. split; [done |].
  unfold matches_candidate in Hm. cbn [search stage truthy] in Hm.
  destruct (String.eqb_spec candidateId ""); [done |].
  rewrite andb_true_r in Hm. by apply orb_true_iff.
Qed.

Lemma loadCandidate_missed (net : Net) (db : DB) (candidateId : string)
  (st : State) :
  delay net = Resolved tt →
  Forall (fun r => is_string "name" r = true ∧ is_string "email" r = true)
    (getAll (candidatesStore db)) →
  candidateId ≠ "" →
  (∀ c, In c (getAll (candidatesStore db)) →
        field c "id" = VStr candidateId →
        text_matches "name" candidateId c = false
        ∧ text_matches "email" candidateId c = false) →
  candidate (loadCandidate net db candidateId st) = None.
Proof.
  intros Hnet Hty Hne Hnone.
  destruct (candidate (loadCandidate net db candidateId st)) as [c|] eqn:Hc;
    [| done].
  destruct (loadCandidate_found net db candidateId st c Hnet Hty Hne Hc)
    as (Hin & Hid & Hm).
  destruct (Hnone c Hin Hid) as [Hn He].
  destruct Hm; congruence.
Qed.

(** X4: the lookup goes through the text search.  Without an injected
    failure, and names and e-mails being strings, a candidate is found
    only if it is stored, has the id asked for, and its name or e-mail
    contains that id; when no stored candidate with the id has it in its
    name or e-mail, nothing is found, stored or not. *)
Theorem candidate_found_only_through_search (net : Net) (db : DB)
  (candidateId : string) (st : State) :
  delay net = Resolved tt →
  Forall (fun r => is_string "name" r = true ∧ is_string "email" r = true)
    (getAll (candidatesStore db)) →
  candidateId ≠ "" →
  (∀ c, candidate (loadCandidate net db candidateId st) = Some c →
        In c (getAll (candidatesStore db))
        ∧ field c "id" = VStr candidateId
        ∧ (text_matches "name" candidateId c = true
           ∨ text_matches "email" candidateId c = true))
  ∧ ((∀ c, In c (getAll (candidatesStore db)) →
           field c "id" = VStr candidateId →
           text_matches "name" candidateId c = false
           ∧ text_matches "email" candidateId c = false) →
     candidate (loadCandidate net db candidateId st) = None).
Proof.
  intros Hnet Hty Hne. split.
  - intros c. by apply loadCandidate_found.
  - by apply loadCandidate_missed.
Qed.

(** Candidate 1 of the scenario is stored under the id "candidate-1", which
    neither its name nor its e-mail contains: it is not found. *)
Lemma candidate_found_only_through_search_witness :
  candidate (loadCandidate Scenario.calm Scenario.one_candidate "candidate-1"
               initial) = None.
Proof.
  refine (proj2 (candidate_found_only_through_search Scenario.calm
                   Scenario.one_candidate "candidate-1" initial _ _ _) _).
  - reflexivity.
  - repeat constructor.
  - discriminate.
  - intros c [<- | []] _. split; by_evaluation.
Defined.

End CandidateLookup.

Section SeededLookup.

Import Store MockAPI QueryEngine CandidateDetail Text.

Lemma every_char_app (p : ascii → bool) (a b : string) :
  every_char p (a +:+ b) = every_char p a && every_char p b.
Proof.
  induction a as [|c a IH]; [done |].
  rewrite append_cons. simpl. by rewrite IH, andb_assoc.
Qed.

Lemma toLowerCase_app (a b : string) :
  Js.toLowerCase (a +:+ b) = (Js.toLowerCase a +:+ Js.toLowerCase b)%string.
Proof.
  induction a as [|c a IH]; [done |].
  rewrite append_cons. simpl. by rewrite IH, append_cons.
Qed.

(** The characters of a text that occurs in another are characters of
    the other. *)
Lemma includes_every_char (p : ascii → bool) (s t : string) :
  Js.includes s t = true → every_char p s = true → every_char p t = true.
Proof.
  intros (a & b & ->)%includes_substring.
  rewrite !every_char_app, !andb_true_iff. tauto.
Qed.

Lemma upsert_elements {A} (k : key) (r r' : A) (s : ostore A) :
  In r' (getAll (upsert k r s)) → r' = r ∨ In r' (getAll s).
Proof.
  unfold getAll. induction s as [|[k1 r1] s IH]; simpl.
  - intros [<- | []]. by left.
  - destruct (decide (k = k1)) as [->|Hne]; simpl.
    + intros [<- | H]; auto.
    + destruct (key_ltb k k1); simpl.
      * intros [<- | [<- | H]]; auto.
      * intros [<- | H]; [auto |]. destruct (IH H); auto.
Qed.

Lemma add_all_elements {A} (keyOf : A → option key) (rs : list A)
  (s s' : ostore A) (r : A) :
  add_all keyOf rs s = Some s' →
  In r (getAll s') → In r rs ∨ In r (getAll s).
Proof.
  revert s. induction rs as [|r0 rs IH]; intros s.
  - intros [= <-]. by right.
  - rewrite add_all_cons. unfold add at 1.
    destruct (keyOf r0) as [k|]; [| done]. simpl.
    destruct (get k s); [done |]. simpl. intros Hadd Hin.
    destruct (IH _ Hadd Hin) as [H | H]; [left; by right |].
    apply upsert_elements in H as [-> | H]; [left; by left | by right].
Qed.

(** The candidates store after seeding holds seeded candidates only. *)
Lemma seeded_candidates (o : Oracle) (r : record) :
  In r (getAll (candidatesStore (seedData o empty_db))) →
  ∃ i, (i < 1000)%nat ∧ r = seed_candidate o i.
Proof.
  destruct (seedData_empty o) as (js & cs & asm & Hdb & _ & Hjl & _).
  assert (Hcs : add_all (key_at "id") (seed_candidate o <$> seq 0 1000) []
                = Some cs).
  { revert Hdb. unfold seedData.
    change (count (jobsStore empty_db)) with 0. change (0 <? 0) with false.
    cbv iota.
    change (jobsStore empty_db) with (@nil (key * record)).
    change (candidatesStore empty_db) with (@nil (key * record)).
    change (assessmentsStore empty_db) with (@nil (key * Assessment)).
    change (map ?f ?l) with (f <$> l).
    destruct (add_all (key_at "id") (seed_job o <$> seq 0 25) []);
      [| intros [= <- _ _]; discriminate Hjl].
    destruct (add_all (key_at "id") (seed_candidate o <$> seq 0 1000) []);
      [| intros [= <- _ _]; discriminate Hjl].
    destruct (add_all assessment_key (seed_assessment <$> seq 1 3) []);
      [| intros [= <- _ _]; discriminate Hjl].
    by intros [= _ -> _]. }
  rewrite Hdb. cbn [candidatesStore]. intros Hin.
  destruct (add_all_elements _ _ _ _ _ Hcs Hin) as [H | []].
  apply list_elem_of_In, list_elem_of_fmap in H as (i & -> & Hi).
  exists i. split; [| done].
  apply elem_of_seq in Hi. lia.
Qed.

(** No seeded name or e-mail has a hyphen in it. *)
Lemma seeded_texts_without_hyphen (i : nat) :
  (i < 1000)%nat →
  every_char no_hyphen (Js.toLowerCase ("Candidate " +:+ pretty (i + 1)%nat))
  = true
  ∧ every_char no_hyphen
      (Js.toLowerCase ("candidate" +:+ pretty (i + 1)%nat +:+ "@email.com"))
    = true.
Proof.
  intros Hi.
  assert (H : forallb
                (fun i =>
                   every_char no_hyphen
                     (Js.toLowerCase ("Candidate " +:+ pretty (i + 1)%nat))
                   && every_char no_hyphen
                        (Js.toLowerCase
                           ("candidate" +:+ pretty (i + 1)%nat
                            +:+ "@email.com")))
                (seq 0 1000) = true) by (vm_compute; reflexivity).
  rewrite forallb_forall in H.
  apply andb_true_iff, H, in_seq. lia.
Qed.

(** X5: after seeding, no seeded candidate can be looked up.  The ids are
    "candidate-1" to "candidate-1000", the names "Candidate 1", ... and
    the e-mails "candidate1@email.com", ...: the search for the id, which
    looks at names and e-mails only, matches none of them, and the detail
    view ends with no candidate, for every candidate that is stored. *)
Theorem seeded_candidate_never_found (o : Oracle) (net : Net) (i : nat)
  (st : State) :
  delay net = Resolved tt →
  (i < 1000)%nat →
  let db := seedData o empty_db in
  get (candidate_key i) (candidatesStore db) = Some (seed_candidate o i)
  ∧ candidate (loadCandidate net db ("candidate-" +:+ pretty (i + 1)%nat) st)
    = None.
Proof.
  intros Hnet Hi db.
  split.
  { destruct (seedData_empty o)
      as (js & cs & asm & Hdb & _ & _ & _ & _ & Hcg & _).
    subst db. rewrite Hdb. by apply Hcg. }
  assert (Hneedle : every_char no_hyphen
                      (Js.toLowerCase ("candidate-" +:+ pretty (i + 1)%nat))
                    = false).
  { by rewrite toLowerCase_app, every_char_app. }
  assert (Hmiss : ∀ c, In c (getAll (candidatesStore db)) →
            is_string "name" c = true ∧ is_string "email" c = true
            ∧ text_matches "name" ("candidate-" +:+ pretty (i + 1)%nat) c
              = false
            ∧ text_matches "email" ("candidate-" +:+ pretty (i + 1)%nat) c
              = false).
  { intros c (j & Hj & ->)%seeded_candidates.
    destruct (seeded_texts_without_hyphen j Hj) as [Hname Hmail].
    split; [reflexivity |]. split; [reflexivity |].
    unfold text_matches.
    change (seed_candidate o j !! "name")
      with (Some (VStr ("Candidate " +:+ pretty (j + 1)%nat))).
    change (seed_candidate o j !! "email")
      with (Some (VStr ("candidate" +:+ pretty (j + 1)%nat +:+ "@email.com"))).
    split.
    - destruct (Js.includes _ _) eqn:Hinc; [| done].
      pose proof (includes_every_char no_hyphen _ _ Hinc Hname). congruence.
    - destruct (Js.includes _ _) eqn:Hinc; [| done].
      pose proof (includes_every_char no_hyphen _ _ Hinc Hmail). congruence. }
  clearbody db.
  refine (loadCandidate_missed net db _ st Hnet _ _ _).
  - apply Forall_forall. intros c Hc. apply list_elem_of_In in Hc.
    destruct (Hmiss c Hc) as (H1 & H2 & _). split; assumption.
  - intros [=].
  - intros c Hc _. destruct (Hmiss c Hc) as (_ & _ & H1 & H2).
    split; assumption.
Qed.

Lemma seeded_candidate_never_found_witness :
  let o := {| random := fun _ => 1 # 2; now := fun _ => 1700000000000 |} in
  candidate (loadCandidate Scenario.calm (seedData o empty_db)
               ("candidate-" +:+ pretty 1%nat) initial) = None.
Proof.
  intros o.
  refine (proj2 (seeded_candidate_never_found o Scenario.calm 0 initial _ _)).
  - reflexivity.
  - lia.
Defined.

End SeededLookup.

(** ** [getJobs], [getCandidates] and [createJob] together *)

Section SearchAndCreate.

Import Store MockAPI QueryEngine.

(** A callback that throws on some element makes [filter] throw. *)
Lemma filterM_rejects {A} (f : A → outcome bool) (e : error) (l : list A) :
  (∀ x e', f x = Rejected e' → e' = e) →
  Exists (fun x => f x = Rejected e) l →
  filterM f l = Rejected e.
Proof.
  intros Honly. induction 1 as [x l Hx | x l _ IH]; simpl.
  - by rewrite Hx.
  - destruct (f x) as [b | e'] eqn:Hfx.
    + by rewrite IH.
    + by rewrite (Honly x e' Hfx).
Qed.

Lemma field_includes_rejects (name needle : string) (r : record) (e : error) :
  field_includes name needle r = Rejected e → e = TypeError.
Proof.
  unfold field_includes. destruct (r !! name) as [[]|]; congruence.
Qed.

Lemma field_includes_not_string (name needle : string) (r : record) :
  is_string name r = false → field_includes name needle r = Rejected TypeError.
Proof.
  unfold field_includes, is_string. by destruct (r !! name) as [[]|].
Qed.

(** Without a search text the queries do not read the text fields. *)
Lemma getJobs_without_search (net : Net) (db : DB) (params : Params) :
  delay net = Resolved tt →
  truthy (search params) = None →
  getJobs net db params
  = Resolved (page_result 10 params
                (List.filter (matches_job params) (getAll (jobsStore db)))).
Proof.
  intros Hnet Hs. unfold getJobs, matches_job. rewrite Hnet, Hs. simpl.
  destruct (truthy (status params)); [done |]. by rewrite filter_true.
Qed.

Lemma getCandidates_without_search (net : Net) (db : DB) (params : Params) :
  delay net = Resolved tt →
  truthy (search params) = None →
  getCandidates net db params
  = Resolved (page_result 50 params
                (List.filter (matches_candidate params)
                   (getAll (candidatesStore db)))).
Proof.
  intros Hnet Hs. unfold getCandidates, matches_candidate.
  rewrite Hnet, Hs. simpl.
  destruct (truthy (stage params)); [done |]. by rewrite filter_true.
Qed.

(** X6: one record whose searched field is not a string breaks the
    search for everybody.  Without an injected failure, when some stored
    job has no string title, every [getJobs] with a search text fails with
    a type error, and likewise [getCandidates] when some candidate has no
    string name; the same two queries without the search text succeed,
    whatever the records hold, and return the page of the records that
    match the other parameters. *)
Theorem search_fails_on_untitled_record (net : Net) (db : DB)
  (params : Params) (s : string) :
  delay net = Resolved tt →
  truthy (search params) = Some s →
  let unsearched := {| search := None; status := status params;
                       stage := stage params; page := page params;
                       pageSize := pageSize params |} in
  (Exists (fun job => is_string "title" job = false) (getAll (jobsStore db)) →
   getJobs net db params = Rejected TypeError)
  ∧ (Exists (fun c => is_string "name" c = false)
       (getAll (candidatesStore db)) →
     getCandidates net db params = Rejected TypeError)
  ∧ getJobs net db unsearched
    = Resolved (page_result 10 unsearched
                  (List.filter (matches_job unsearched)
                     (getAll (jobsStore db))))
  ∧ getCandidates net db unsearched
    = Resolved (page_result 50 unsearched
                  (List.filter (matches_candidate unsearched)
                     (getAll (candidatesStore db)))).
Proof.
  intros Hnet Hs unsearched. split; [| split; [| split]].
  - intros Hex. unfold getJobs. rewrite Hnet, Hs. simpl.
    rewrite (filterM_rejects _ TypeError); [done | |].
    + intros x e'. apply field_includes_rejects.
    + eapply Exists_impl; [exact Hex |]. intros r.
      apply field_includes_not_string.
  - intros Hex. unfold getCandidates. rewrite Hnet, Hs. simpl.
    rewrite (filterM_rejects _ TypeError); [done | |].
    + intros x e'. unfold name_or_email_includes.
      destruct (field_includes "name" _ x) as [[|]|e0] eqn:Hn; simpl.
      * done.
      * apply field_includes_rejects.
      * intros [= <-]. by apply field_includes_rejects in Hn.
    + eapply Exists_impl; [exact Hex |]. intros r Hr.
      unfold name_or_email_includes.
      by rewrite (field_includes_not_string _ _ _ Hr).
  - by apply getJobs_without_search.
  - by apply getCandidates_without_search.
Qed.

(** One job without a title and one candidate without a name: the
    searches fail, the queries without a search text resolve. *)
Lemma search_fails_on_untitled_record_witness :
  let db := set_candidates
              [(KStr "candidate-1", {[ "id" := VStr "candidate-1" ]})]
              (set_jobs [(KStr "job-1", {[ "id" := VStr "job-1" ]})]
                 empty_db) in
  let params := {| search := Some "dev"; status := None; stage := None;
                   page := None; pageSize := None |} in
  let unsearched := {| search := None; status := None; stage := None;
                       page := None; pageSize := None |} in
  getJobs Scenario.calm db params = Rejected TypeError
  ∧ getCandidates Scenario.calm db params = Rejected TypeError
  ∧ (∃ res, getJobs Scenario.calm db unsearched = Resolved res)
  ∧ (∃ res, getCandidates Scenario.calm db unsearched = Resolved res).
Proof.
  intros db params unsearched.
  destruct (search_fails_on_untitled_record Scenario.calm db params "dev"
              eq_refl eq_refl) as (Hjobs & Hcands & Hj & Hc).
  split; [apply Hjobs; constructor; reflexivity |].
  split; [apply Hcands; constructor; reflexivity |].
  split; eexists; [exact Hj | exact Hc].
Defined.

Lemma upsert_In {A} (k : key) (r : A) (s : ostore A) :
  In r (getAll (upsert k r s)).
Proof.
  unfold getAll. induction s as [|[k1 r1] s IH]; simpl; [by left |].
  destruct (decide (k = k1)); simpl; [by left |].
  destruct (key_ltb k k1); simpl; [by left | by right].
Qed.



(** What [createJob] returns and stores when no failure is injected. *)
Lemma createJob_resolved (net : Net) (now today : Z) (db : DB) (job : record) :
  delay net = Resolved tt →
  let newJob := spread job {[ "id" := VStr ("job-" +:+ pretty now);
                              "createdAt" := VDate today ]} in
  (createJob net now today db job).1 = Resolved newJob
  ∧ (get (KStr ("job-" +:+ pretty now)) (jobsStore db) = None →
     jobsStore (createJob net now today db job).2
     = upsert (KStr ("job-" +:+ pretty now)) newJob (jobsStore db))
  ∧ (∀ old, get (KStr ("job-" +:+ pretty now)) (jobsStore db) = Some old →
            (createJob net now today db job).2 = db).
Proof.
  intros Hnet newJob. unfold createJob. rewrite Hnet. fold newJob.
  assert (Hk : key_at "id" newJob = Some (KStr ("job-" +:+ pretty now))).
  { unfold key_at, newJob.
    by rewrite (spread_named _ _ "id" (VStr ("job-" +:+ pretty now)))
      by apply lookup_insert_eq. }
  split; [reflexivity |]. unfold add. rewrite Hk. simpl. split.
  - by intros ->.
  - intros old ->. simpl. apply set_jobs_same.
Qed.



(** X8: the id of a new job is the millisecond of its creation.  Of two
    jobs created in the same millisecond, both without an injected
    failure, the second is returned to the caller as created but is not
    stored: the database is left as the first creation made it. *)
Theorem second_job_of_a_millisecond_is_lost (net1 net2 : Net)
  (now today1 today2 : Z) (db : DB) (job1 job2 : record) :
  delay net1 = Resolved tt →
  delay net2 = Resolved tt →
  let db1 := (createJob net1 now today1 db job1).2 in
  let second := createJob net2 now today2 db1 job2 in
  second.1 = Resolved (spread job2 {[ "id" := VStr ("job-" +:+ pretty now);
                                      "createdAt" := VDate today2 ]})
  ∧ second.2 = db1.
Proof.
  intros Hn1 Hn2 db1 second.
  destruct (createJob_resolved net2 now today2 db1 job2 Hn2)
    as (Hres & _ & Hsame).
  split; [exact Hres |].
  destruct (createJob_resolved net1 now today1 db job1 Hn1)
    as (_ & Hfree & Htaken).
  destruct (get (KStr ("job-" +:+ pretty now)) (jobsStore db)) as [old|] eqn:Hg.
  - apply (Hsame old). unfold db1. by rewrite (Htaken old).
  - eapply Hsame. unfold db1. rewrite Hfree by done. apply get_upsert_eq.
Qed.

Lemma second_job_of_a_millisecond_is_lost_witness :
  let first := createJob Scenario.calm 1700000000000 1700000000000 empty_db
                 {[ "title" := VStr "First" ]} in
  let second := createJob Scenario.calm 1700000000000 1700000000001 first.2
                  {[ "title" := VStr "Second" ]} in
  second.2 = first.2.
Proof.
  intros first second.
  refine (proj2 (second_job_of_a_millisecond_is_lost Scenario.calm
                   Scenario.calm 1700000000000 1700000000000 1700000000001
                   empty_db {[ "title" := VStr "First" ]}
                   {[ "title" := VStr "Second" ]} _ _)); reflexivity.
Defined.

End SearchAndCreate.

(** ** Assessments: [updateAssessment], [getAssessment] and the builder *)

Section Assessments.

Import Store MockAPI AssessmentBuilder.

(** X9: an assessment that was saved is the one loaded.  Without injected
    failures, [updateAssessment] stores the assessment under the job id it
    is given, whether or not the job had one (the id inside the assessment
    is overwritten by it), [getAssessment] for that job then returns it and
    the builder shows it; the assessments of other jobs, the jobs and the
    candidates are as before. *)
Theorem saved_assessment_is_loaded (net net' : Net) (db : DB) (jobId : string)
  (a : Assessment) (st : State) :
  delay net = Resolved tt →
  delay net' = Resolved tt →
  let saved := {| a_jobId := jobId; a_title := a_title a;
                  a_sections := a_sections a |} in
  let res := updateAssessment net db jobId a in
  res.1 = Resolved saved
  ∧ getAssessment net' res.2 (VStr jobId) = Resolved (Some saved)
  ∧ assessment (loadAssessment net' res.2 jobId st) = Some saved
  ∧ (∀ other, other ≠ jobId →
       getAssessment net' res.2 (VStr other)
       = getAssessment net' db (VStr other))
  ∧ jobsStore res.2 = jobsStore db
  ∧ candidatesStore res.2 = candidatesStore db.
Proof.
  intros Hnet Hnet' saved res.
  assert (Hres : res = (Resolved saved,
                        set_assessments
                          (upsert (KStr jobId) saved (assessmentsStore db)) db)).
  { unfold res, updateAssessment. by rewrite Hnet. }
  rewrite Hres. cbn [fst snd].
  assert (Hget : getAssessment net' (set_assessments
                   (upsert (KStr jobId) saved (assessmentsStore db)) db)
                   (VStr jobId) = Resolved (Some saved)).
  { unfold getAssessment. rewrite Hnet'. simpl. by rewrite get_upsert_eq. }
  split; [reflexivity |]. split; [exact Hget |]. split.
  { unfold loadAssessment. by rewrite Hget. }
  split; [| by split].
  intros other Hne. unfold getAssessment. rewrite Hnet'. simpl.
  rewrite get_upsert_ne; [done |]. by intros [= ->].
Qed.

Lemma saved_assessment_is_loaded_witness :
  let a := {| a_jobId := "job-7"; a_title := "Screening"; a_sections := [] |} in
  getAssessment Scenario.calm
    (updateAssessment Scenario.calm empty_db "job-1" a).2 (VStr "job-1")
  = Resolved (Some {| a_jobId := "job-1"; a_title := "Screening";
                      a_sections := [] |}).
Proof.
  intros a.
  refine (proj1 (proj2 (saved_assessment_is_loaded Scenario.calm Scenario.calm
                          empty_db "job-1" a initial _ _))); reflexivity.
Defined.

End Assessments.

(** ** [AssessmentsView]: the jobs offered for an assessment *)

Section ActiveJobs.

Import Store MockAPI QueryEngine AssessmentsView.

(** X10: the list of assessments shows active jobs only, and never more
    than ten of them: without an injected failure it is the first ten
    active jobs in the order of the store, whatever else the jobs hold;
    the view asks for no other page. *)
Theorem assessments_view_shows_first_ten_active (net : Net) (db : DB)
  (st : State) :
  delay net = Resolved tt →
  let active := List.filter (field_is "status" "active")
                  (getAll (jobsStore db)) in
  jobs (loadJobs net db st) = take 10 active
  ∧ length (jobs (loadJobs net db st)) = (length active `min` 10)%nat
  ∧ Forall (fun job => job !! "status" = Some (VStr "active"))
      (jobs (loadJobs net db st)).
Proof.
  intros Hnet active.
  assert (Hjobs : jobs (loadJobs net db st) = take 10 active).
  { unfold loadJobs. rewrite getJobs_without_search by done.
    cbn [jobs data page_result].
    change (or_default (page _) 1) with 1.
    change (or_default (pageSize _) 10) with 10.
    rewrite (slice_window _ ((1 - 1) * 10) 10) by lia.
    unfold matches_job. cbn [search status truthy]. simpl.
    reflexivity. }
  rewrite Hjobs. split; [reflexivity |]. split.
  - rewrite length_take. lia.
  - apply Forall_take. apply Forall_forall. intros job Hjob.
    apply list_elem_of_In, filter_In in Hjob as [_ Hjob].
    by apply field_is_iff.
Qed.

Lemma assessments_view_shows_first_ten_active_witness :
  jobs (loadJobs Scenario.calm Scenario.three_jobs initial)
  = take 10 (List.filter (field_is "status" "active")
               (getAll (jobsStore Scenario.three_jobs))).
Proof.
  refine (proj1 (assessments_view_shows_first_ten_active Scenario.calm
                   Scenario.three_jobs initial _)).
  reflexivity.
Defined.

End ActiveJobs.

(** ** [AssessmentEditor]: sections *)

Section Sections.

Import AssessmentEditor.

(** X11: [updateSection] touches the sections with the given id only.  The
    job id and the title of the assessment, the number of sections and
    their ids in order are kept; a section with another id is the section
    it was; with no section of that id the assessment is unchanged; and an
    update of the title keeps the questions of every section. *)
Theorem updateSection_touches_one_id (sectionId : string)
  (updates : SectionUpdates) (a : Assessment) :
  let a' := updateSection sectionId updates a in
  a_jobId a' = a_jobId a
  ∧ a_title a' = a_title a
  ∧ map s_id (a_sections a') = map s_id (a_sections a)
  ∧ (∀ i s, a_sections a !! i = Some s → s_id s ≠ sectionId →
            a_sections a' !! i = Some s)
  ∧ (Forall (fun s => s_id s ≠ sectionId) (a_sections a) →
     a_sections a' = a_sections a)
  ∧ (u_questions updates = None →
     map s_questions (a_sections a') = map s_questions (a_sections a)).
Proof.
  intros a'. unfold a', updateSection, with_sections. cbn.
  split; [done |]. split; [done |]. split; [| split; [| split]].
  - rewrite map_map. apply map_ext. intros s. by destruct (String.eqb _ _).
  - intros i s Hs Hne. change (map ?f ?l) with (f <$> l).
    rewrite list_lookup_fmap, Hs. simpl.
    by destruct (String.eqb_spec (s_id s) sectionId).
  - intros Hall. induction Hall as [|s l Hs _ IH]; simpl; [done |].
    rewrite IH. by destruct (String.eqb_spec (s_id s) sectionId).
  - intros Hq. rewrite map_map. apply map_ext. intros s.
    destruct (String.eqb _ _); [| done]. unfold merge_section. simpl.
    by rewrite Hq.
Qed.

(** X12: a section that was just added can be renamed without touching
    the others: when no section has the id of the new one, [addSection]
    followed by [updateSection] of that id with a title leaves the old
    sections as they were and ends with the new, empty section under the
    new title. *)
Theorem added_section_is_renamed_alone (now : Z) (newTitle : string)
  (a : Assessment) :
  Forall (fun s => s_id s ≠ "section-" +:+ pretty now) (a_sections a) →
  updateSection ("section-" +:+ pretty now)
    {| u_title := Some newTitle; u_questions := None |}
    (addSection now a)
  = with_sections a
      (a_sections a ++ [ {| s_id := "section-" +:+ pretty now;
                            s_title := newTitle;
                            s_questions := [] |} ]).
Proof.
  intros Hfresh. unfold updateSection, addSection, with_sections. cbn.
  f_equal. rewrite map_app. simpl. rewrite String.eqb_refl. f_equal.
  induction Hfresh as [|s l Hs _ IH]; simpl; [done |].
  rewrite IH. by destruct (String.eqb_spec (s_id s) ("section-" +:+ pretty now)).
Qed.

Lemma added_section_is_renamed_alone_witness :
  let a := AssessmentBuilder.blank "job-1" in
  a_sections (updateSection ("section-" +:+ pretty 1700000000000)
                {| u_title := Some "Basics"; u_questions := None |}
                (addSection 1700000000000 a))
  = [ {| s_id := "section-" +:+ pretty 1700000000000; s_title := "Basics";
         s_questions := [] |} ].
Proof.
  intros a.
  rewrite (added_section_is_renamed_alone 1700000000000 "Basics" a);
    [reflexivity | constructor].
Defined.

(** X13: two sections added in the same millisecond get the same id, and
    the editor then cannot tell them apart: renaming the first of them
    renames both. *)
Theorem sections_of_one_millisecond_are_edited_together (now : Z)
  (newTitle : string) (a : Assessment) :
  Forall (fun s => s_id s ≠ "section-" +:+ pretty now) (a_sections a) →
  updateSection ("section-" +:+ pretty now)
    {| u_title := Some newTitle; u_questions := None |}
    (addSection now (addSection now a))
  = with_sections a
      (a_sections a
       ++ [ {| s_id := "section-" +:+ pretty now; s_title := newTitle;
               s_questions := [] |};
            {| s_id := "section-" +:+ pretty now; s_title := newTitle;
               s_questions := [] |} ]).
Proof.
  intros Hfresh. unfold updateSection, addSection, with_sections. cbn.
  f_equal. rewrite <- app_assoc, map_app. simpl. rewrite String.eqb_refl.
  f_equal.
  induction Hfresh as [|s l Hs _ IH]; simpl; [done |].
  rewrite IH. by destruct (String.eqb_spec (s_id s) ("section-" +:+ pretty now)).
Qed.

Lemma sections_of_one_millisecond_are_edited_together_witness :
  let a := AssessmentBuilder.blank "job-1" in
  map s_title
    (a_sections (updateSection ("section-" +:+ pretty 1700000000000)
                   {| u_title := Some "Basics"; u_questions := None |}
                   (addSection 1700000000000 (addSection 1700000000000 a))))
  = ["Basics"; "Basics"].
Proof.
  intros a.
  rewrite (sections_of_one_millisecond_are_edited_together 1700000000000
             "Basics" a); [reflexivity | constructor].
Defined.

End Sections.

(** ** [QuestionEditor]: the options of a choice question *)

Section Options.

Import QuestionEditor Text.

Lemma split_nonempty (sep : ascii) (s : string) :
  ∃ w ws, Js.split sep s = w :: ws.
Proof.
  induction s as [|c s (w & ws & IH)]; simpl; [by eexists _, _ |].
  rewrite IH. destruct (Ascii.eqb c sep); by eexists _, _.
Qed.

Lemma split_sep_cons (sep : ascii) (rest : string) :
  Js.split sep (String sep rest) = EmptyString :: Js.split sep rest.
Proof.
  simpl. destruct (split_nonempty sep rest) as (w & ws & ->).
  by rewrite Ascii.eqb_refl.
Qed.

(** A text without the separator, followed by the separator and more
    text, is split after it. *)
Lemma split_app (sep : ascii) (a rest : string) :
  every_char (fun c => negb (Ascii.eqb c sep)) a = true →
  Js.split sep (a +:+ String sep rest) = a :: Js.split sep rest.
Proof.
  induction a as [|c a IH]; intros Ha.
  - apply split_sep_cons.
  - simpl in Ha. apply andb_true_iff in Ha as [Hc Ha].
    rewrite append_cons. simpl. rewrite (IH Ha).
    apply negb_true_iff in Hc. by rewrite Hc.
Qed.

Lemma split_plain (sep : ascii) (a : string) :
  every_char (fun c => negb (Ascii.eqb c sep)) a = true →
  Js.split sep a = [a].
Proof.
  induction a as [|c a IH]; intros Ha; [done |].
  simpl in Ha. apply andb_true_iff in Ha as [Hc Ha].
  simpl. rewrite (IH Ha). apply negb_true_iff in Hc. by rewrite Hc.
Qed.

Lemma split_snoc_sep (sep : ascii) (t : string) :
  Js.split sep (t +:+ String sep EmptyString)
  = Js.split sep t ++ [EmptyString].
Proof.
  induction t as [|c t IH].
  - change (EmptyString +:+ String sep EmptyString)%string
      with (String sep EmptyString).
    by rewrite split_sep_cons.
  - rewrite append_cons. simpl. rewrite IH.
    destruct (split_nonempty sep t) as (w & ws & ->). simpl.
    by destruct (Ascii.eqb c sep).
Qed.

Lemma filter_nonempty_snoc_empty (l : list string) :
  Js.filter_nonempty (l ++ [EmptyString]) = Js.filter_nonempty l.
Proof.
  unfold Js.filter_nonempty. rewrite List.filter_app. simpl.
  apply app_nil_r.
Qed.

Lemma filter_nonempty_cons (o : string) (l : list string) :
  o ≠ EmptyString →
  Js.filter_nonempty (o :: l) = o :: Js.filter_nonempty l.
Proof.
  intros Hne. unfold Js.filter_nonempty. simpl.
  by destruct (String.eqb_spec o EmptyString).
Qed.

Lemma parse_join (options : list string) :
  Forall (fun o => o ≠ EmptyString ∧ every_char not_newline o = true)
    options →
  parseOptions (Js.join (String newline EmptyString) options) = options.
Proof.
  unfold parseOptions.
  induction 1 as [|o l [Hne Hnl] Hl IH]; [done |].
  destruct l as [|o' l].
  - simpl. rewrite (split_plain newline o Hnl).
    by rewrite filter_nonempty_cons.
  - change (Js.join (String newline EmptyString) (o :: o' :: l))
      with (o +:+ String newline EmptyString
            +:+ Js.join (String newline EmptyString) (o' :: l))%string.
    change (String newline EmptyString +:+ ?r)%string with (String newline r).
    rewrite (split_app newline o _ Hnl).
    rewrite filter_nonempty_cons by done. by rewrite IH.
Qed.

(** X14: the options of a question survive the text area.  When the
    options are not empty and hold no line break, the text shown for them,
    one option a line, is read back as the same options: an edit that
    leaves the text as shown leaves the question as it was. *)
Theorem options_text_round_trip (question : Question) (options : list string) :
  q_options question = Some options →
  Forall (fun o => o ≠ EmptyString ∧ every_char not_newline o = true)
    options →
  parseOptions (optionsText question) = options
  ∧ setOptionsText question (optionsText question) = question.
Proof.
  intros Hq Hok.
  assert (Hp : parseOptions (optionsText question) = options)
    by (unfold optionsText; rewrite Hq; by apply parse_join).
  split; [exact Hp |].
  unfold setOptionsText. rewrite Hp, <- Hq. by destruct question.
Qed.

Lemma options_text_round_trip_witness :
  parseOptions (optionsText (MockAPI.seed_question 0))
  = ["Beginner"; "Intermediate"; "Advanced"; "Expert"].
Proof.
  refine (proj1 (options_text_round_trip (MockAPI.seed_question 0)
                   ["Beginner"; "Intermediate"; "Advanced"; "Expert"] _ _)).
  - reflexivity.
  - repeat constructor; discriminate.
Defined.

Lemma parse_line_breaks (text : string) :
  every_char (fun c => Ascii.eqb c newline) text = true →
  parseOptions text = [].
Proof.
  unfold parseOptions.
  induction text as [|c t IH]; intros Hall; [done |].
  simpl in Hall. apply andb_true_iff in Hall as [Hc Hall].
  apply Ascii.eqb_eq in Hc as ->.
  rewrite split_sep_cons. exact (IH Hall).
Qed.

(** X15: a line break typed at the end of the options is swallowed: the
    options read from a text and from the same text followed by a line
    break are the same, so the question, and with it the text the area
    shows, is what it was before the key was pressed; and a text that is
    all line breaks reads as no option. *)
Theorem trailing_line_break_is_dropped (question : Question) (text : string) :
  setOptionsText question (text +:+ String newline EmptyString)
  = setOptionsText question text
  ∧ optionsText (setOptionsText question
                   (text +:+ String newline EmptyString))
    = optionsText (setOptionsText question text)
  ∧ (every_char (fun c => Ascii.eqb c newline) text = true →
     parseOptions text = []).
Proof.
  assert (H : parseOptions (text +:+ String newline EmptyString)
              = parseOptions text).
  { unfold parseOptions. by rewrite split_snoc_sep, filter_nonempty_snoc_empty. }
  unfold setOptionsText, optionsText. cbn. rewrite H.
  split; [done |]. split; [done |]. apply parse_line_breaks.
Qed.

(** Two line breaks read as no option. *)
Lemma trailing_line_break_is_dropped_witness :
  parseOptions (String newline (String newline EmptyString)) = [].
Proof.
  refine (proj2 (proj2 (trailing_line_break_is_dropped
                          (MockAPI.seed_question 0)
                          (String newline (String newline EmptyString)))) _).
  reflexivity.
Defined.

End Options.

(** ** [QuestionInput]: the check boxes of a multi-choice question *)

Section CheckBoxes.

Import QuestionInput.





End CheckBoxes.

(** ** [KanbanBoard]: the columns and the drop *)

Section Columns.

Import Store MockAPI KanbanBoard.

Lemma columns_lookup (f : string → list record) (l : list string)
  (m : gmap string (list record)) (k : string) :
  foldl (fun acc stage => <[stage := f stage]> acc) m l !! k
  = if decide (k ∈ l) then Some (f k) else m !! k.
Proof.
  revert m. induction l as [|s l IH]; intros m.
  - destruct (decide (k ∈ [])) as [H|_]; [by apply elem_of_nil in H | done].
  - cbn [foldl]. rewrite IH.
    destruct (decide (k ∈ l)) as [Hin | Hnin];
      destruct (decide (k ∈ s :: l)) as [Hin' | Hnin'].
    + done.
    + exfalso. apply Hnin'. by right.
    + apply elem_of_cons in Hin' as [-> | H]; [| done].
      apply lookup_insert_eq.
    + rewrite lookup_insert_ne; [done |]. intros ->. apply Hnin'. by left.
Qed.

(** X17: the board has one column for each of the six stages and no
    other; a column holds the candidates whose stage it is, in the order
    of the list; so a candidate is in one column at most, and a candidate
    whose stage is none of the six is in no column. *)
Theorem board_columns (candidates : list record) :
  (∀ stage,
     candidatesByStage candidates !! stage
     = if decide (stage ∈ stages)
       then Some (List.filter
                    (fun c => strict_eq (field c "stage") (VStr stage))
                    candidates)
       else None)
  ∧ (∀ stage column c,
       candidatesByStage candidates !! stage = Some column →
       (In c column ↔ In c candidates ∧ field c "stage" = VStr stage))
  ∧ (∀ stage stage' column column' c,
       candidatesByStage candidates !! stage = Some column →
       candidatesByStage candidates !! stage' = Some column' →
       In c column → In c column' → stage = stage')
  ∧ (∀ stage column c,
       (∀ s, s ∈ stages → field c "stage" ≠ VStr s) →
       candidatesByStage candidates !! stage = Some column →
       ¬ In c column).
Proof.
  assert (Hlookup : ∀ stage,
            candidatesByStage candidates !! stage
            = if decide (stage ∈ stages)
              then Some (List.filter
                           (fun c => strict_eq (field c "stage") (VStr stage))
                           candidates)
              else None).
  { intros stage. unfold candidatesByStage.
    by rewrite (columns_lookup
                  (fun stage =>
                     List.filter
                       (fun c => strict_eq (field c "stage") (VStr stage))
                       candidates)). }
  assert (Hin : ∀ stage column c,
            candidatesByStage candidates !! stage = Some column →
            (In c column ↔ In c candidates ∧ field c "stage" = VStr stage)).
  { intros stage column c. rewrite Hlookup.
    destruct (decide (stage ∈ stages)); [| done]. intros [= <-].
    rewrite filter_In. unfold strict_eq. by rewrite bool_decide_eq_true. }
  split; [exact Hlookup |]. split; [exact Hin |]. split.
  - intros stage stage' column column' c Hc Hc' [_ H]%(Hin _ _ _ Hc)
      [_ H']%(Hin _ _ _ Hc').
    congruence.
  - intros stage column c Hnone Hc [_ H]%(Hin _ _ _ Hc).
    revert Hc. rewrite Hlookup. destruct (decide (stage ∈ stages)); [| done].
    intros _. by apply (Hnone stage).
Qed.

(** X18: a drop changes the stage of the dragged candidate and nothing
    else.  When the candidate is stored, the drop is on another stage than
    the one it shows and no failure is injected, the stored candidate
    gets the new stage and keeps every other field it has in the store,
    every other candidate, the jobs and the assessments are as before, and
    no alert is raised.  With an injected failure nothing is written and
    the alert is raised; a drop on the stage the candidate shows does
    nothing at all. *)
Theorem drop_changes_the_stage_only (d : Drop) (db : DB) (evs : list event)
  (id : string) (c : record) :
  field (draggedCandidate d) "id" = VStr id →
  get (KStr id) (candidatesStore db) = Some c →
  key_at "id" c = Some (KStr id) →
  (strict_eq (field (draggedCandidate d) "stage") (VStr (target d)) = false →
   delay (net d) = Resolved tt →
   ∃ c',
     get (KStr id) (candidatesStore (settle d (db, evs)).1) = Some c'
     ∧ c' !! "stage" = Some (VStr (target d))
     ∧ (∀ f, f ≠ "stage" → c' !! f = c !! f)
     ∧ (∀ k, k ≠ KStr id →
          get k (candidatesStore (settle d (db, evs)).1)
          = get k (candidatesStore db))
     ∧ jobsStore (settle d (db, evs)).1 = jobsStore db
     ∧ assessmentsStore (settle d (db, evs)).1 = assessmentsStore db
     ∧ (settle d (db, evs)).2 = evs)
  ∧ (strict_eq (field (draggedCandidate d) "stage") (VStr (target d)) = false →
     delay (net d) = Rejected NetworkError →
     settle d (db, evs)
     = (db, evs ++ [Alert "Failed to update candidate stage"]))
  ∧ (strict_eq (field (draggedCandidate d) "stage") (VStr (target d)) = true →
     settle d (db, evs) = (db, evs)).
Proof.
  intros Hid Hget Hkey. split; [| split].
  - intros Hstage Hnet. unfold settle. rewrite Hstage, Hid.
    rewrite updateCandidate_update.
    rewrite (update_writes _ _ _ (KStr id) (KStr id)); [| done | done |].
    + rewrite Hget. simpl.
      exists (spread c {[ "stage" := VStr (target d) ]}).
      split; [apply get_upsert_eq |].
      split; [apply spread_named, lookup_singleton_eq |].
      split; [intros f Hf; apply spread_unnamed; by apply lookup_singleton_ne |].
      split; [| done]. intros k Hk. by apply get_upsert_ne.
    + rewrite Hget. simpl. by rewrite key_at_spread_unnamed.
  - intros Hstage Hnet. unfold settle. rewrite Hstage, Hid.
    rewrite updateCandidate_update, update_network_error by done. simpl.
    by rewrite set_candidates_same.
  - intros Hstage. unfold settle. by rewrite Hstage.
Qed.

Lemma drop_changes_the_stage_only_witness :
  ∃ c',
    get (KStr "candidate-1")
      (candidatesStore (settle Scenario.to_tech (Scenario.one_candidate, [])).1)
    = Some c'
    ∧ c' !! "stage" = Some (VStr "tech")
    ∧ c' !! "name" = Scenario.candidate_1 !! "name".
Proof.
  destruct (proj1 (drop_changes_the_stage_only Scenario.to_tech
                     Scenario.one_candidate [] "candidate-1"
                     Scenario.candidate_1 eq_refl eq_refl eq_refl)
              eq_refl eq_refl) as (c' & Hget & Hstage & Hkeep & _).
  exists c'. split; [exact Hget |]. split; [exact Hstage |].
  apply Hkeep. discriminate.
Defined.

End Columns.

(** ** [CreateJobModal]: the payload of a new job *)

Section Payload.

Import Store MockAPI CreateJobModal Text.

Lemma lower_ascii_not_upper (c : ascii) : not_upper (Js.lower_ascii c) = true.
Proof. destruct c as [[] [] [] [] [] [] [] []]; reflexivity. Qed.

Lemma toLowerCase_not_upper (s : string) :
  every_char not_upper (Js.toLowerCase s) = true.
Proof.
  induction s as [|c s IH]; simpl; [done |].
  by rewrite lower_ascii_not_upper, IH.
Qed.

Lemma dash_spaces_not_space (s : string) :
  every_char not_space (dash_spaces s) = true.
Proof.
  induction s as [|c s IH]; [done |].
  simpl. destruct (Js.is_space c) eqn:Hc.
  - destruct s as [|c' s]; [done |].
    destruct (Js.is_space c'); [exact IH |].
    simpl. simpl in IH. by rewrite IH.
  - simpl. unfold not_space at 1. by rewrite Hc, IH.
Qed.

Lemma dash_spaces_keeps (p : ascii → bool) (s : string) :
  p "-"%char = true →
  every_char p s = true → every_char p (dash_spaces s) = true.
Proof.
  intros Hdash. induction s as [|c s IH]; [done |].
  simpl. intros [Hc Hs]%andb_true_iff. specialize (IH Hs).
  destruct (Js.is_space c).
  - destruct s as [|c' s]; [simpl; by rewrite Hdash |].
    destruct (Js.is_space c'); [exact IH |].
    simpl. simpl in IH. by rewrite Hdash, IH.
  - simpl. by rewrite Hc, IH.
Qed.

(** X19: the slug made up for a job.  When the form gives no slug, the
    slug of the payload is built from the title and has no white space and
    no capital letter in it, whatever the title is; a slug that is given is
    taken as it is. *)
Theorem generated_slug_is_clean (formData : FormData) :
  (slug formData = "" →
   ∃ generated,
     payload formData !! "slug" = Some (VStr generated)
     ∧ every_char not_space generated = true
     ∧ every_char not_upper generated = true)
  ∧ (slug formData ≠ "" →
     payload formData !! "slug" = Some (VStr (slug formData))).
Proof.
  split.
  - intros Hs. exists (dash_spaces (Js.toLowerCase (title formData))).
    split.
    + unfold payload. rewrite Hs. reflexivity.
    + split; [apply dash_spaces_not_space |].
      apply dash_spaces_keeps; [reflexivity | apply toLowerCase_not_upper].
  - intros Hs. unfold payload.
    destruct (String.eqb_spec (slug formData) ""); [done | reflexivity].
Qed.

Lemma generated_slug_is_clean_witness :
  ∃ generated,
    payload {| title := "Senior  Data Engineer"; slug := ""; tags := "";
               f_status := "active" |} !! "slug" = Some (VStr generated)
    ∧ every_char not_space generated = true
    ∧ every_char not_upper generated = true.
Proof.
  refine (proj1 (generated_slug_is_clean
                   {| title := "Senior  Data Engineer"; slug := "";
                      tags := ""; f_status := "active" |}) _).
  reflexivity.
Defined.

Lemma trimStart_first (s : string) :
  first_char not_space (Js.trimStart s) = true.
Proof.
  induction s as [|c s IH]; [done |]. simpl.
  destruct (Js.is_space c) eqn:Hc; [exact IH |].
  simpl. unfold not_space. by rewrite Hc.
Qed.

Lemma trimEnd_first (p : ascii → bool) (s : string) :
  first_char p s = true → first_char p (Js.trimEnd s) = true.
Proof.
  destruct s as [|c s]; [done |]. simpl. intros Hc.
  destruct (Js.trimEnd s); [by destruct (Js.is_space c) | done].
Qed.

Lemma trimEnd_last (s : string) :
  last_char not_space (Js.trimEnd s) = true.
Proof.
  induction s as [|c s IH]; [done |]. simpl.
  destruct (Js.trimEnd s) as [|c' r] eqn:Hr.
  - destruct (Js.is_space c) eqn:Hc; [done |].
    simpl. unfold not_space. by rewrite Hc.
  - exact IH.
Qed.

Lemma trimStart_keeps (p : ascii → bool) (s : string) :
  every_char p s = true → every_char p (Js.trimStart s) = true.
Proof.
  induction s as [|c s IH]; [done |]. simpl.
  intros [Hc Hs]%andb_true_iff.
  destruct (Js.is_space c); [by apply IH |]. simpl. by rewrite Hc, Hs.
Qed.

Lemma trimEnd_keeps (p : ascii → bool) (s : string) :
  every_char p s = true → every_char p (Js.trimEnd s) = true.
Proof.
  induction s as [|c s IH]; [done |]. simpl.
  intros [Hc Hs]%andb_true_iff. specialize (IH Hs).
  destruct (Js.trimEnd s) as [|c' r].
  - destruct (Js.is_space c); [done |]. simpl. by rewrite Hc.
  - simpl. simpl in IH. by rewrite Hc, IH.
Qed.

Lemma split_commas_without_comma (s : string) :
  Forall (fun w => every_char not_comma w = true) (split_commas s).
Proof.
  induction s as [|c s IH]; simpl; [by repeat constructor |].
  destruct (split_commas s) as [|w ws]; [constructor |].
  apply Forall_cons in IH as [Hw Hws].
  destruct (Ascii.eqb c ",") eqn:Hc.
  - by repeat constructor.
  - constructor; [| done]. simpl. unfold not_comma at 1. by rewrite Hc, Hw.
Qed.

(** X20: the tags of the payload.  Whatever is typed in the field of the
    tags, every tag of the payload is a text that is not empty, has no
    comma in it, and neither begins nor ends with white space. *)
Theorem payload_tags_are_clean (formData : FormData) :
  ∃ tagList,
    payload formData !! "tags" = Some (VList tagList)
    ∧ Forall (fun t => t ≠ ""
                       ∧ every_char not_comma t = true
                       ∧ first_char not_space t = true
                       ∧ last_char not_space t = true) tagList.
Proof.
  eexists. split; [reflexivity |].
  apply Forall_forall. intros t Ht.
  apply list_elem_of_In, filter_In in Ht as [Ht Hne].
  apply in_map_iff in Ht as (w & <- & Hw).
  split; [| split; [| split]].
  - intros Heq. rewrite Heq in Hne. discriminate Hne.
  - apply trimEnd_keeps, trimStart_keeps.
    pose proof (split_commas_without_comma (tags formData)) as Hall.
    rewrite Forall_forall in Hall. apply Hall. by apply list_elem_of_In.
  - apply trimEnd_first, trimStart_first.
  - apply trimEnd_last.
Qed.

(** X21: a form with a title, submitted without an injected failure while
    the id of the millisecond is free, creates the job: the database holds,
    under the id "job-" followed by the millisecond, a job with the title
    and the status of the form, [onCreated] is called and no alert is
    raised.  With an injected failure nothing is stored and the alert
    "Failed to create job" is raised. *)
Theorem submitted_form_creates_job (net : Net) (now today : Z) (db : DB)
  (formData : FormData) :
  Js.trim (title formData) ≠ "" →
  (delay net = Resolved tt →
   get (KStr ("job-" +:+ pretty now)) (jobsStore db) = None →
   let result := handleSubmit net now today db formData in
   created result = true
   ∧ raised result = []
   ∧ ∃ job,
       get (KStr ("job-" +:+ pretty now)) (jobsStore (db_after result))
       = Some job
       ∧ job !! "id" = Some (VStr ("job-" +:+ pretty now))
       ∧ job !! "title" = Some (VStr (title formData))
       ∧ job !! "status" = Some (VStr (f_status formData))
       ∧ job !! "createdAt" = Some (VDate today))
  ∧ (delay net = Rejected NetworkError →
     handleSubmit net now today db formData
     = {| db_after := db; raised := [Alert "Failed to create job"];
          created := false |}).
Proof.
  intros Htitle.
  assert (Hblank : String.eqb (Js.trim (title formData)) "" = false)
    by by apply String.eqb_neq.
  split.
  - intros Hnet Hfree result. unfold result, handleSubmit. rewrite Hblank.
    unfold createJob. rewrite Hnet.
    set (newJob := spread (payload formData) _).
    assert (Hid : newJob !! "id" = Some (VStr ("job-" +:+ pretty now)))
      by (apply spread_named, lookup_insert_eq).
    unfold add, key_at. rewrite Hid. simpl. rewrite Hfree. simpl.
    split; [done |]. split; [done |].
    exists newJob. split; [apply get_upsert_eq |]. split; [exact Hid |].
    split; [| split].
    + unfold newJob. rewrite spread_unnamed; [reflexivity |].
      rewrite lookup_insert_ne by done. by apply lookup_singleton_ne.
    + unfold newJob. rewrite spread_unnamed; [reflexivity |].
      rewrite lookup_insert_ne by done. by apply lookup_singleton_ne.
    + apply spread_named. rewrite lookup_insert_ne by done.
      apply lookup_singleton_eq.
  - intros Hnet. unfold handleSubmit. rewrite Hblank.
    unfold createJob. by rewrite Hnet.
Qed.

Lemma submitted_form_creates_job_witness :
  let formData := {| title := "Data Engineer"; slug := "";
                     tags := "SQL, Python"; f_status := "active" |} in
  created (handleSubmit Scenario.calm 1700000000000 1700000000000 empty_db
             formData) = true.
Proof.
  intros formData.
  refine (proj1 (proj1 (submitted_form_creates_job Scenario.calm
                          1700000000000 1700000000000 empty_db formData _)
                   _ _)).
  - discriminate.
  - reflexivity.
  - reflexivity.
Defined.

End Payload.

(** ** [seedData]: what the random samples can and cannot do *)

Section SeedConsistency.

Import Store MockAPI.

Lemma floor_below (q : Q) (n : Z) :
  (0 <= q)%Q → (q < inject_Z n)%Q → 0 ≤ Qfloor q < n.
Proof.
  intros H0 Hn. split.
  - change 0 with (Qfloor 0). by apply Qfloor_resp_le.
  - rewrite Zlt_Qlt. eapply Qle_lt_trans; [apply Qfloor_le | exact Hn].
Qed.

Lemma pretty_nat_Z (z : Z) : 0 < z → pretty z = pretty (Z.to_nat z).
Proof.
  destruct z as [|p|p]; [lia | | lia]. intros _.
  unfold pretty at 2, pretty_nat. unfold pretty at 1, pretty_Z.
  by rewrite Z2Nat.inj_pos, positive_nat_N.
Qed.

(** X22: with samples in [0, 1) the seeded data is consistent.  Every
    seeded candidate has one of the six stages and applies to one of the
    25 seeded jobs, which is stored; every seeded job is active or
    archived and has one, two or three tags. *)
Theorem seeded_data_is_consistent (o : Oracle) :
  (∀ n, (0 <= random o n)%Q ∧ (random o n < 1)%Q) →
  (∀ i, (i < 1000)%nat →
     ∃ stage jobId job,
       seed_candidate o i !! "stage" = Some (VStr stage)
       ∧ In stage stages
       ∧ seed_candidate o i !! "jobId" = Some (VStr jobId)
       ∧ get (KStr jobId) (jobsStore (seedData o empty_db)) = Some job
       ∧ job !! "id" = Some (VStr jobId))
  ∧ (∀ i, (i < 25)%nat →
       ∃ status tagList,
         seed_job o i !! "status" = Some (VStr status)
         ∧ (status = "active" ∨ status = "archived")
         ∧ seed_job o i !! "tags" = Some (VList tagList)
         ∧ (1 ≤ length tagList ≤ 3)%nat).
Proof.
  intros Hrand. split.
  - intros i Hi.
    destruct (Hrand (75 + 3 * i)%nat) as [Hs0 Hs1].
    destruct (Hrand (75 + 3 * i + 1)%nat) as [Hj0 Hj1].
    assert (Hz : 0 ≤ Qfloor (random o (75 + 3 * i)%nat * 6) < 6)
      by (apply floor_below; unfold inject_Z; lra).
    assert (Hk : 0 ≤ Qfloor (random o (75 + 3 * i + 1)%nat * 25) < 25)
      by (apply floor_below; unfold inject_Z; lra).
    destruct (seedData_empty o)
      as (js & cs & asm & Hdb & _ & _ & Hjg & _).
    set (k := Qfloor (random o (75 + 3 * i + 1)%nat * 25)) in *.
    set (z := Qfloor (random o (75 + 3 * i)%nat * 6)) in *.
    assert (Hstage : ∃ stage, Js.at_index stages z = Some stage
                              ∧ In stage stages).
    { assert (z = 0 ∨ z = 1 ∨ z = 2 ∨ z = 3 ∨ z = 4 ∨ z = 5) as Hcases by lia.
      destruct Hcases as [-> | [-> | [-> | [-> | [-> | ->]]]]];
        eexists; (split; [reflexivity |]); simpl; tauto. }
    destruct Hstage as (stage & Hat & Hin).
    exists stage, ("job-" +:+ pretty (k + 1)), (seed_job o (Z.to_nat k)).
    split; [| split; [exact Hin | split; [reflexivity | split]]].
    + change (seed_candidate o i !! "stage")
        with (Some match Js.at_index stages z with
                   | Some s => VStr s
                   | None => VUndef
                   end).
      by rewrite Hat.
    + rewrite Hdb. cbn [jobsStore].
      rewrite pretty_nat_Z by lia.
      replace (Z.to_nat (k + 1)) with (Z.to_nat k + 1)%nat by lia.
      apply (Hjg (Z.to_nat k)). lia.
    + rewrite pretty_nat_Z by lia.
      replace (Z.to_nat (k + 1)) with (Z.to_nat k + 1)%nat by lia.
      reflexivity.
  - intros i Hi.
    destruct (Hrand (3 * i + 1)%nat) as [Ht0 Ht1].
    assert (Hz : 0 ≤ Qfloor (random o (3 * i + 1)%nat * 3) < 3)
      by (apply floor_below; unfold inject_Z; lra).
    eexists _, _. split; [reflexivity |]. split.
    { destruct (Js.Qltb _ _); [by left | by right]. }
    split; [reflexivity |].
    set (z := Qfloor (random o (3 * i + 1)%nat * 3)) in *.
    assert (z = 0 ∨ z = 1 ∨ z = 2) as Hcases by lia.
    destruct Hcases as [-> | [-> | ->]]; simpl; lia.
Qed.

Lemma seeded_data_is_consistent_witness :
  let o := {| random := fun _ => 1 # 2; now := fun _ => 1700000000000 |} in
  ∃ stage jobId job,
    seed_candidate o 0 !! "stage" = Some (VStr stage)
    ∧ In stage stages
    ∧ seed_candidate o 0 !! "jobId" = Some (VStr jobId)
    ∧ get (KStr jobId) (jobsStore (seedData o empty_db)) = Some job
    ∧ job !! "id" = Some (VStr jobId).
Proof.
  intros o.
  refine (proj1 (seeded_data_is_consistent o _) 0%nat _).
  - intros n. split; [discriminate | reflexivity].
  - lia.
Defined.

End SeedConsistency.

(** ** Pages and page sizes below zero *)

Section NegativePages.

Import Store MockAPI QueryEngine.




(** X24: a page size below zero is not turned down either.  Without an
    injected failure and without a search text, the first page with page
    size [-n] is the filtered list without its last [n] records, and the
    number of pages reported is zero or less. *)
Theorem negative_page_size_drops_the_tail (net : Net) (db : DB)
  (params : Params) (n : Z) :
  delay net = Resolved tt →
  truthy (search params) = None →
  or_default (page params) 1 = 1 →
  pageSize params = Some (- n) →
  1 ≤ n →
  let matching := List.filter (matches_job params) (getAll (jobsStore db)) in
  ∃ res,
    getJobs net db params = Resolved res
    ∧ data res = take (length matching - Z.to_nat n) matching
    ∧ pg_pageSize (pagination res) = - n
    ∧ pg_totalPages (pagination res) ≤ 0.
Proof.
  intros Hnet Hsearch Hpage Hsize Hn matching.
  eexists. split; [by apply getJobs_without_search |].
  cbn [data pagination page_result pg_pageSize pg_totalPages].
  rewrite Hpage, Hsize. unfold or_default.
  destruct (Z.eqb_spec (- n) 0) as [|_]; [lia |].
  fold matching. split; [| split; [done |]].
  - replace ((1 - 1) * - n) with 0 by lia.
    unfold Js.slice, Js.relative_index.
    destruct (Z.ltb_spec 0 0); [lia |].
    destruct (Z.ltb_spec (0 + - n) 0); [| lia].
    rewrite Z.min_l by lia. simpl (Z.to_nat 0). rewrite drop_0.
    f_equal. lia.
  - unfold Js.ceil_div.
    pose proof (Z.div_mod (- Z.of_nat (length matching)) (- n) ltac:(lia)).
    pose proof (Z.mod_neg_bound (- Z.of_nat (length matching)) (- n)
                  ltac:(lia)).
    nia.
Qed.

Lemma negative_page_size_drops_the_tail_witness :
  ∃ res,
    getJobs Scenario.calm Scenario.three_jobs
      {| search := None; status := None; stage := None;
         page := None; pageSize := Some (-1) |} = Resolved res
    ∧ data res = [Scenario.job_a; Scenario.job_b].
Proof.
  destruct (negative_page_size_drops_the_tail Scenario.calm
              Scenario.three_jobs
              {| search := None; status := None; stage := None;
                 page := None; pageSize := Some (-1) |} 1
              eq_refl eq_refl eq_refl eq_refl ltac:(lia))
    as (res & Hres & Hdata & _).
  exists res. split; [exact Hres |]. rewrite Hdata. reflexivity.
Defined.

End NegativePages.

(** ** Editing a question *)

Section QuestionEdits.

Import AssessmentEditor.

(** X25: editing a question does not add, drop or move questions.  For a
    section of the assessment whose id no other section has, and an
    updated question that keeps the id of the one edited, the section keeps
    its id, its title and the ids of its questions in order, the questions
    with another id are the ones they were, and the other sections are
    untouched. *)
Theorem question_edit_keeps_the_others (a : Assessment) (i : nat)
  (section : Section_) (question updated : Question) :
  a_sections a !! i = Some section →
  (∀ j s, a_sections a !! j = Some s → s_id s = s_id section → j = i) →
  q_id updated = q_id question →
  ∃ section',
    a_sections (replaceQuestion section question updated a) !! i
    = Some section'
    ∧ s_id section' = s_id section
    ∧ s_title section' = s_title section
    ∧ map q_id (s_questions section') = map q_id (s_questions section)
    ∧ (∀ k q, s_questions section !! k = Some q → q_id q ≠ q_id question →
              s_questions section' !! k = Some q)
    ∧ (∀ k q, s_questions section !! k = Some q → q_id q = q_id question →
              s_questions section' !! k = Some updated)
    ∧ (∀ j s, j ≠ i → a_sections a !! j = Some s →
              a_sections (replaceQuestion section question updated a) !! j
              = Some s).
Proof.
  intros Hsec Huniq Hid.
  unfold replaceQuestion, updateSection, with_sections. cbn.
  change (map ?f ?l) with (f <$> l).
  eexists. split.
  { rewrite list_lookup_fmap, Hsec. simpl. by rewrite String.eqb_refl. }
  unfold merge_section. cbn.
  split; [done |]. split; [done |]. split; [| split; [| split]].
  - rewrite <- list_fmap_compose. apply list_fmap_ext. intros _ q _. simpl.
    destruct (String.eqb_spec (q_id q) (q_id question)); congruence.
  - intros k q Hq Hne. rewrite list_lookup_fmap, Hq. simpl.
    by destruct (String.eqb_spec (q_id q) (q_id question)).
  - intros k q Hq Heq. rewrite list_lookup_fmap, Hq. simpl.
    by destruct (String.eqb_spec (q_id q) (q_id question)).
  - intros j s Hj Hs. rewrite list_lookup_fmap, Hs. simpl.
    destruct (String.eqb_spec (s_id s) (s_id section)) as [Heq|]; [| done].
    by destruct (Hj (Huniq j s Hs Heq)).
Qed.

Lemma question_edit_keeps_the_others_witness :
  let section := {| s_id := "section-1"; s_title := "Technical Skills";
                    s_questions := map MockAPI.seed_question (seq 0 2) |} in
  let a := {| a_jobId := "job-1"; a_title := "Assessment for Job 1";
              a_sections := [section] |} in
  let question := MockAPI.seed_question 0 in
  let updated := QuestionEditor.setOptionsText question "Yes" in
  ∃ section',
    a_sections (replaceQuestion section question updated a) !! 0%nat
    = Some section'
    ∧ map q_id (s_questions section') = map q_id (s_questions section).
Proof.
  intros section a question updated.
  destruct (question_edit_keeps_the_others a 0 section question updated)
    as (s' & Hs' & _ & _ & Hids & _).
  - reflexivity.
  - intros [|j] s Hs _; [reflexivity | discriminate Hs].
  - reflexivity.
  - exists s'. split; assumption.
Defined.

End QuestionEdits.

(** ** A failed reorder whose reload succeeds *)

Section RollbackExample.

Import Store MockAPI QueryEngine JobsView Scenario.

(** X26: a job is being dragged and is dropped on a job with another id,
    the list shown is not empty and is what the query of the current
    filters returns.  When the simulated call fails and the reload
    succeeds, the drop ends with the list as it was before, no job being
    dragged, and one alert raised. *)
Theorem failed_reorder_is_undone (sample : Q) (net : Net) (db : DB)
  (st : State) (dragged targetJob : record) (res : PageResult) :
  getJobs net db (filters st) = Resolved res →
  jobs st = data res →
  reorder_fails sample = true →
  draggedJob st = Some dragged →
  strict_eq (field dragged "id") (field targetJob "id") = false →
  jobs st ≠ [] →
  ∃ st', handleDrop sample net db st targetJob = Some st'
         ∧ jobs st' = jobs st
         ∧ draggedJob st' = None
         ∧ events st' = events st ++ [Alert "Reorder failed, rolling back..."].
Proof.
  intros Hget Hsync Hfail Hdrag Hids Hne.
  destruct (reorder_Permutation (jobs st) dragged targetJob Hne)
    as (l & Hl & _).
  unfold handleDrop, begin. rewrite Hdrag, Hids, Hl. simpl. rewrite Hfail.
  eexists. split; [reflexivity |].
  unfold rollback, loadJobs. simpl. rewrite Hget. simpl.
  by rewrite Hsync.
Qed.

(** B dropped on A in the loaded list, the simulated call failing and the
    reload succeeding: the list is [A, B, C] again. *)
Lemma failed_reorder_is_undone_witness :
  ∃ st', handleDrop (1 # 20) calm three_jobs (handleDragStart job_b loaded)
           job_a = Some st'
         ∧ jobs st' = [job_a; job_b; job_c]
         ∧ draggedJob st' = None.
Proof.
  destruct (failed_reorder_is_undone (1 # 20) calm three_jobs
              (handleDragStart job_b loaded) job_b job_a _
              (getJobs_without_search calm three_jobs
                 (filters (handleDragStart job_b loaded)) eq_refl eq_refl))
    as (st' & Hdrop & Hjobs & Hdragged & _).
  - by_evaluation.
  - reflexivity.
  - reflexivity.
  - by_evaluation.
  - discriminate.
  - exists st'. split; [exact Hdrop |]. split; [| exact Hdragged].
    rewrite Hjobs. by_evaluation.
Defined.

End RollbackExample.
